(** * Change poller and event classifier of [scripts/EventProducer.py]

    A shallow embedding of the order-monitoring path of the event
    producer: the datetime values the database driver hands back, the
    row tuple of the [SELECT], the classification of a row into an event
    type, the [OrderEvent] built from it, the blocking publish to the
    broker, and one iteration of the [monitor_orders] loop with its
    in-memory watermark [last_processed['orders']]. *)

From stdpp Require Import gmap strings list sorting pretty.
From Stdlib Require Import Ascii.

Local Open Scope string_scope.
Local Open Scope Z_scope.
Local Open Scope list_scope.

(** ** Python's [datetime] and [timedelta] *)

Module Py.

(** A naive [datetime.datetime]: the seven fields the object stores. *)
Record datetime := mk_datetime {
  year : Z; month : Z; day : Z;
  hour : Z; minute : Z; second : Z; microsecond : Z
}.

#[global] Instance datetime_eq_dec : EqDecision datetime.
Proof. solve_decision. Defined.

(** [datetime._is_leap], [_days_before_year], [_days_before_month] and
    [_ymd2ord] of the standard library; [//] is floor division, and the
    table of days before a month has a placeholder at index 0. *)
Definition is_leap (y : Z) : bool :=
  (y mod 4 =? 0) && (negb (y mod 100 =? 0) || (y mod 400 =? 0)).

Definition days_before_year (y : Z) : Z :=
  let y' := y - 1 in y' * 365 + y' / 4 - y' / 100 + y' / 400.

Definition DAYS_BEFORE_MONTH : list Z :=
  [-1; 0; 31; 59; 90; 120; 151; 181; 212; 243; 273; 304; 334].

Definition days_before_month (y m : Z) : Z :=
  default 0 (DAYS_BEFORE_MONTH !! Z.to_nat m)
  + (if (2 <? m) && is_leap y then 1 else 0).

Definition ymd2ord (y m d : Z) : Z :=
  days_before_year y + days_before_month y m + d.

Definition toordinal (t : datetime) : Z := ymd2ord (year t) (month t) (day t).

(** A [datetime.timedelta], always held normalised:
    [0 <= seconds < 86400] and [0 <= microseconds < 1000000]. *)
Record timedelta := mk_timedelta { days : Z; seconds : Z; microseconds : Z }.

(** The constructor [timedelta(days, seconds, microseconds)] carries the
    overflow of each unit into the next (Python's [divmod]). *)
Definition new_timedelta (d s us : Z) : timedelta :=
  let s1 := s + us / 1000000 in
  {| days := d + s1 / 86400; seconds := s1 mod 86400;
     microseconds := us mod 1000000 |}.

(** [datetime.__sub__] for two naive datetimes. *)
Definition sub (a b : datetime) : timedelta :=
  let secs1 := second a + minute a * 60 + hour a * 3600 in
  let secs2 := second b + minute b * 60 + hour b * 3600 in
  new_timedelta (toordinal a - toordinal b) (secs1 - secs2)
                (microsecond a - microsecond b).

(** The integer whose quotient by [10**6] is [timedelta.total_seconds()]. *)
Definition total_microseconds (td : timedelta) : Z :=
  (days td * 86400 + seconds td) * 1000000 + microseconds td.

(** [abs(td.total_seconds()) < n] for an integer [n].  [total_seconds]
    is the float nearest to [total_microseconds / 10**6]; rounding is
    monotone and [n] is a float, and a multiple of a microsecond below
    [n] is too far from [n] to round up to it, so the test on floats is
    the test on the integers. *)
Definition abs_total_seconds_lt (td : timedelta) (n : Z) : bool :=
  Z.abs (total_microseconds td) <? n * 1000000.

(** Position of a datetime on the time line, in microseconds since the
    start of day 0: what the database compares and sorts by. *)
Definition timeline (t : datetime) : Z :=
  (toordinal t * 86400 + (second t + minute t * 60 + hour t * 3600)) * 1000000
  + microsecond t.

(** ["%04d"], ["%02d"], ["%06d"] on a non-negative field. *)
Fixpoint zeros (n : nat) : string :=
  match n with O => "" | S n' => "0" +:+ zeros n' end.

Definition zfill (width : nat) (n : Z) : string :=
  let s := pretty (Z.to_N n) in
  zeros (width - String.length s) +:+ s.

(** [datetime.isoformat(sep)]: the fraction is printed only when the
    microsecond field is not zero. *)
Definition isoformat_sep (sep : string) (t : datetime) : string :=
  zfill 4 (year t) +:+ "-" +:+ zfill 2 (month t) +:+ "-" +:+ zfill 2 (day t)
  +:+ sep
  +:+ zfill 2 (hour t) +:+ ":" +:+ zfill 2 (minute t) +:+ ":" +:+ zfill 2 (second t)
  +:+ (if microsecond t =? 0 then "" else "." +:+ zfill 6 (microsecond t)).

Definition isoformat : datetime → string := isoformat_sep "T".

(** [str(t)], as an f-string interpolates it. *)
Definition str : datetime → string := isoformat_sep " ".

(** A [decimal.Decimal] that the driver returns for a NUMERIC column:
    the value is [coefficient * 10 ^ exponent]. *)
Record Decimal := mk_Decimal { coefficient : Z; exponent : Z }.

(** [float(d)]: the double nearest to the decimal, kept symbolic. *)
Inductive float := float_of_Decimal (d : Decimal).

End Py.

(** ** Rows, events and classification *)

(** One row of the [SELECT] of [monitor_orders]; the code reads the
    tuple by position, [order[0]] to [order[12]], in the order of the
    select list, which is the order of the fields here.  Every column
    holds a value of its type: the timestamps are naive datetimes, the
    amounts are decimals, the status is a string. *)
Module Row.
Record order := mk_order {
  order_id : Z;                (* order[0] *)
  customer_id : Z;             (* order[1] *)
  product_id : Z;              (* order[2] *)
  order_date : Py.datetime;    (* order[3] *)
  quantity : Z;                (* order[4] *)
  unit_price : Py.Decimal;     (* order[5] *)
  discount_amount : Py.Decimal;(* order[6] *)
  tax_amount : Py.Decimal;     (* order[7] *)
  total_amount : Py.Decimal;   (* order[8] *)
  order_status : string;       (* order[9] *)
  payment_method : string;     (* order[10] *)
  created_at : Py.datetime;    (* order[11] *)
  updated_at : Py.datetime     (* order[12] *)
}.
End Row.

(** A value of the metadata dictionary. *)
Inductive meta_value :=
| MStr (s : string)
| MFloat (x : Py.float).

(** The dataclass [OrderEvent]; [asdict] copies it field by field into
    the payload that is published. *)
Module OrderEvent.
Record t := mk {
  order_id : Z;
  customer_id : Z;
  product_id : Z;
  event_type : string;
  order_amount : Py.float;
  quantity : Z;
  discount_amount : Py.float;
  tax_amount : Py.float;
  order_status : string;
  payment_method : string;
  timestamp : string;
  metadata : gmap string meta_value
}.
End OrderEvent.

(** The dictionary [status_map] of [_determine_order_event_type]. *)
Definition status_map : gmap string string :=
  {[ "PENDING" := "created";
     "CONFIRMED" := "confirmed";
     "SHIPPED" := "shipped";
     "DELIVERED" := "delivered";
     "CANCELLED" := "cancelled" ]}.

(** [EventProducer._determine_order_event_type]. *)
Definition _determine_order_event_type (order : Row.order) : string :=
  let created_at := Row.created_at order in
  let updated_at := Row.updated_at order in
  let order_status := Row.order_status order in
  if Py.abs_total_seconds_lt (Py.sub updated_at created_at) 60 then "created"
  else default "updated" (status_map !! order_status).

(** The [OrderEvent(...)] that the loop body of [monitor_orders] builds
    from a row. *)
Definition build_order_event (order : Row.order) : OrderEvent.t :=
  let event_type := _determine_order_event_type order in
  {| OrderEvent.order_id := Row.order_id order;
     OrderEvent.customer_id := Row.customer_id order;
     OrderEvent.product_id := Row.product_id order;
     OrderEvent.event_type := event_type;
     OrderEvent.order_amount := Py.float_of_Decimal (Row.total_amount order);
     OrderEvent.quantity := Row.quantity order;
     OrderEvent.discount_amount := Py.float_of_Decimal (Row.discount_amount order);
     OrderEvent.tax_amount := Py.float_of_Decimal (Row.tax_amount order);
     OrderEvent.order_status := Row.order_status order;
     OrderEvent.payment_method := Row.payment_method order;
     OrderEvent.timestamp := Py.isoformat (Row.updated_at order);
     OrderEvent.metadata :=
       {[ "order_date" := MStr (Py.isoformat (Row.order_date order));
          "unit_price" := MFloat (Py.float_of_Decimal (Row.unit_price order)) ]} |}.

(** The event types an order event may carry. *)
Definition order_event_types : list string :=
  ["created"; "confirmed"; "shipped"; "delivered"; "cancelled"; "updated"].

(** ** The query on the orders table *)

(** The statement that [monitor_orders] sends: the select list and the
    table are fixed, so a query is its optional [WHERE updated_at > ...]
    bound, its [ORDER BY updated_at ASC] and its [LIMIT]. *)
Record select_orders := mk_query {
  where_updated_after : option Py.datetime;
  order_by_updated_at_asc : bool;
  limit : nat
}.

(** The text of [where_clause] in the source. *)
Definition where_clause_text (q : select_orders) : string :=
  match where_updated_after q with
  | None => ""
  | Some w => "WHERE updated_at > '" +:+ Py.str w +:+ "'"
  end.

(** Truth value of [self.last_processed['orders']]: [None] is false, a
    datetime is always true. *)
Definition truthy (v : option Py.datetime) : bool :=
  match v with None => false | Some _ => true end.

(** The query built from the current watermark. *)
Definition build_query (watermark : option Py.datetime) : select_orders :=
  {| where_updated_after := if truthy watermark then watermark else None;
     order_by_updated_at_asc := true;
     limit := 100 |}.

(** What the database does with the query.  A row passes the [WHERE]
    when its [updated_at] is strictly later than the bound. *)
Definition selected (q : select_orders) (r : Row.order) : Prop :=
  match where_updated_after q with
  | None => True
  | Some w => Py.timeline w < Py.timeline (Row.updated_at r)
  end.

#[global] Instance selected_dec q r : Decision (selected q r).
Proof. unfold selected. destruct (where_updated_after q); apply _. Defined.

(** The order of [ORDER BY updated_at ASC]. *)
Definition updated_le (r1 r2 : Row.order) : Prop :=
  Py.timeline (Row.updated_at r1) ≤ Py.timeline (Row.updated_at r2).

#[global] Instance updated_le_dec r1 r2 : Decision (updated_le r1 r2).
Proof. unfold updated_le. apply _. Defined.

(** Filter, sort, cut.  SQL leaves the order of rows with equal
    [updated_at] open; the merge sort keeps one of the allowed orders. *)
Definition run_query (table : list Row.order) (q : select_orders) : list Row.order :=
  let rows := filter (selected q) table in
  let rows := if order_by_updated_at_asc q then merge_sort updated_le rows else rows in
  take (limit q) rows.

(** ** The producer, the broker and the source *)

(** The exceptions that reach the handlers of this path. *)
Inductive exn :=
| OperationalError      (* psycopg2: connect or execute failed *)
| KafkaError            (* the send was refused or lost *)
| KafkaTimeoutError     (* [future.get(timeout=10)] ran out; a KafkaError *)
| KeyError.             (* a dictionary without the key *)

(** [isinstance(e, KafkaError)]. *)
Definition is_KafkaError (e : exn) : bool :=
  match e with KafkaError | KafkaTimeoutError => true | _ => false end.

Inductive log_record :=
| Info_initialized
| Info_event_sent (topic event_type : string)
| Error_send_failed (topic : string) (e : exn)
| Error_db_connection (e : exn)
| Error_monitoring_orders (e : exn).

(** What the broker answers to one [producer.send] followed by
    [future.get(timeout=10)]. *)
Inductive send_outcome :=
| Acked
| SendFailed
| AckTimeout.

(** What the source answers during one iteration of the loop. *)
Inductive source :=
| ConnectFails
| QueryFails
| Table (rows : list Row.order).

(** The producer object with what it has done so far: the dictionary
    [last_processed] and the flag [running] of [EventProducer], the
    payloads handed to [producer.send] with their topics (oldest first),
    those among them that the broker has acknowledged in time, the
    number of publish calls made, and the log. *)
Record state := mk_state {
  last_processed : gmap string (option Py.datetime);
  running : bool;
  sent : list (string * OrderEvent.t);
  acked : list (string * OrderEvent.t);
  publishes : nat;
  log : list log_record
}.

Definition set_last_processed (k : string) (v : option Py.datetime) (s : state) : state :=
  {| last_processed := <[k := v]> (last_processed s); running := running s;
     sent := sent s; acked := acked s; publishes := publishes s; log := log s |}.

Definition add_log (r : log_record) (s : state) : state :=
  {| last_processed := last_processed s; running := running s;
     sent := sent s; acked := acked s; publishes := publishes s;
     log := log s ++ [r] |}.

Definition add_publish (topic : string) (e : OrderEvent.t) (s : state) : state :=
  {| last_processed := last_processed s; running := running s;
     sent := sent s ++ [(topic, e)]; acked := acked s;
     publishes := S (publishes s); log := log s |}.

Definition add_acked (topic : string) (e : OrderEvent.t) (s : state) : state :=
  {| last_processed := last_processed s; running := running s;
     sent := sent s; acked := acked s ++ [(topic, e)];
     publishes := publishes s; log := log s |}.

(** [EventProducer.__init__]: nothing processed yet, on every start. *)
Definition init : state :=
  {| last_processed := {[ "orders" := None; "products" := None; "customers" := None ]};
     running := true;
     sent := [];
     acked := [];
     publishes := 0%nat;
     log := [Info_initialized] |}.

(** A new process after the old one has gone: [__init__] runs again, so
    the fields of the producer object are those of [init]; what the
    broker has received and acknowledged and the log written so far are
    outside the process and stay. *)
Definition restart (s : state) : state :=
  {| last_processed := last_processed init;
     running := running init;
     sent := sent s;
     acked := acked s;
     publishes := publishes s;
     log := log s ++ [Info_initialized] |}.

(** Computations that read and write the state and may raise. *)
Inductive result (A : Type) :=
| Ok (a : A)
| Raise (e : exn).
Arguments Ok {A} a.
Arguments Raise {A} e.

Definition M (A : Type) : Type := state → result A * state.

#[global] Instance M_ret : MRet M := λ A a s, (Ok a, s).
#[global] Instance M_bind : MBind M := λ A B f m s,
  match m s with
  | (Ok a, s') => f a s'
  | (Raise e, s') => (Raise e, s')
  end.

Definition raise {A} (e : exn) : M A := λ s, (Raise e, s).
Definition modify (f : state → state) : M unit := λ s, (Ok tt, f s).
Definition gets {A} (f : state → A) : M A := λ s, (Ok (f s), s).

(** [try: m  except Exception as e: h e]. *)
Definition try_except {A} (m : M A) (h : exn → M A) : M A := λ s,
  match m s with
  | (Ok a, s') => (Ok a, s')
  | (Raise e, s') => h e s'
  end.

(** [for x in l: body x]. *)
Fixpoint for_each {A} (l : list A) (body : A → M unit) : M unit :=
  match l with
  | [] => mret tt
  | x :: l' => body x ;; for_each l' body
  end.

(** [d[k]] on [self.last_processed]. *)
Definition get_last_processed (k : string) : M (option Py.datetime) := λ s,
  match last_processed s !! k with
  | Some v => (Ok v, s)
  | None => (Raise KeyError, s)
  end.

Section Producer.

(** The broker's answer to the [n]-th publish call of the run (from 0). *)
Variable sink : nat → send_outcome.

(** [EventProducer.send_event]: publish, wait for the acknowledgement,
    log; a KafkaError is logged and raised again. *)
Definition send_event (topic : string) (event_data : OrderEvent.t) : M unit :=
  try_except
    (n ← gets publishes;
     modify (add_publish topic event_data);;
     match sink n with
     | Acked =>
         modify (add_acked topic event_data);;
         modify (add_log (Info_event_sent topic (OrderEvent.event_type event_data)))
     | SendFailed => raise KafkaError
     | AckTimeout => raise KafkaTimeoutError
     end)
    (λ e, (if is_KafkaError e
           then modify (add_log (Error_send_failed topic e))
           else mret tt);;
          raise e).

(** [EventProducer.get_db_connection]. *)
Definition get_db_connection (src : source) : M source :=
  match src with
  | ConnectFails => modify (add_log (Error_db_connection OperationalError));;
                    raise OperationalError
  | _ => mret src
  end.

(** [cursor.execute(query)] then [cursor.fetchall()]. *)
Definition execute_fetchall (conn : source) (q : select_orders) : M (list Row.order) :=
  match conn with
  | Table rows => mret (run_query rows q)
  | _ => raise OperationalError
  end.

(** The body of [for order in orders] in [monitor_orders]. *)
Definition process_order (order : Row.order) : M unit :=
  let order_event := build_order_event order in
  send_event "orders" order_event;;
  modify (set_last_processed "orders" (Some (Row.updated_at order))).

(** [time.sleep]: nothing of the state changes. *)
Definition sleep (secs : Z) : M unit := mret tt.

(** One pass of the [while self.running] loop of [monitor_orders]:
    connect, build the query from the watermark, fetch, handle the rows
    in order; any exception ends the pass in the handler, which logs it;
    then sleep.  ([conn.close()] changes nothing of the state.) *)
Definition monitor_orders_cycle (src : source) : M unit :=
  try_except
    (conn ← get_db_connection src;
     watermark ← get_last_processed "orders";
     let query := build_query watermark in
     orders ← execute_fetchall conn query;
     for_each orders process_order)
    (λ e, modify (add_log (Error_monitoring_orders e)));;
  sleep 5.

(** [EventProducer.monitor_orders], run against the successive answers
    of the source: one pass per answer while [self.running] holds. *)
Fixpoint monitor_orders (srcs : list source) : M unit :=
  match srcs with
  | [] => mret tt
  | src :: srcs' =>
      r ← gets running;
      if r : bool then monitor_orders_cycle src;; monitor_orders srcs' else mret tt
  end.

(** The states after each completed pass of the body of a [for] loop
    over [l], up to the first pass that raises. *)
Fixpoint loop_states {A} (l : list A) (body : A → M unit) (s : state) : list state :=
  match l with
  | [] => []
  | x :: l' =>
      match body x s with
      | (Ok _, s') => s' :: loop_states l' body s'
      | (Raise _, _) => []
      end
  end.

End Producer.

(** The watermark of the orders table held by a state. *)
Definition watermark (s : state) : option Py.datetime :=
  default None (last_processed s !! "orders").

(** The batch a pass polls from a table when the watermark is [wm]. *)
Definition poll_orders (table : list Row.order) (wm : option Py.datetime) : list Row.order :=
  run_query table (build_query wm).

(** The state a computation ends in. *)
Definition exec {A} (m : M A) (s : state) : state := snd (m s).

(** Watermarks are compared on the time line; unset is before all. *)
Definition wm_le (a b : option Py.datetime) : Prop :=
  match a, b with
  | None, _ => True
  | Some _, None => False
  | Some x, Some y => Py.timeline x ≤ Py.timeline y
  end.

(** ** Notions used to state the properties *)

(** The gap between the last-modified and the created timestamp of a
    row, in microseconds. *)
Definition gap_us (order : Row.order) : Z :=
  Z.abs (Py.timeline (Row.updated_at order) - Py.timeline (Row.created_at order)).

(** How many of [len] consecutive publish calls, the first being call
    number [n], are acknowledged before one is not. *)
Fixpoint acked_prefix (sink : nat → send_outcome) (n len : nat) : nat :=
  match len with
  | O => O
  | S len' =>
      match sink n with
      | Acked => S (acked_prefix sink (S n) len')
      | _ => O
      end
  end.

(** The watermark after the rows [rows] have been delivered, from [wm]. *)
Definition wm_after (wm : option Py.datetime) (rows : list Row.order) : option Py.datetime :=
  match last rows with
  | Some r => Some (Row.updated_at r)
  | None => wm
  end.

(** The payload and topic under which a row is published. *)
Definition published (r : Row.order) : string * OrderEvent.t :=
  ("orders", build_order_event r).

(** The exception a refused publish raises. *)
Definition exn_of_outcome (o : send_outcome) : exn :=
  match o with AckTimeout => KafkaTimeoutError | _ => KafkaError end.

(** ** Sample rows and brokers *)

Module Sample.

Definition at_time (h m s : Z) : Py.datetime :=
  {| Py.year := 2024; Py.month := 3; Py.day := 5;
     Py.hour := h; Py.minute := m; Py.second := s; Py.microsecond := 0 |}.

Definition price : Py.Decimal := {| Py.coefficient := 1999; Py.exponent := -2 |}.

Definition row (id : Z) (status : string) (created updated : Py.datetime) : Row.order :=
  {| Row.order_id := id; Row.customer_id := 7; Row.product_id := 9;
     Row.order_date := created; Row.quantity := 2; Row.unit_price := price;
     Row.discount_amount := price; Row.tax_amount := price;
     Row.total_amount := price; Row.order_status := status;
     Row.payment_method := "PAYPAL";
     Row.created_at := created; Row.updated_at := updated |}.

(** Created at 10:00:00 and confirmed ten seconds later. *)
Definition confirmed_fresh : Row.order :=
  row 1 "CONFIRMED" (at_time 10 0 0) (at_time 10 0 10).

(** Created at 10:00:00, last modified an hour later. *)
Definition shipped : Row.order := row 2 "SHIPPED" (at_time 10 0 0) (at_time 11 0 0).
Definition unknown : Row.order := row 3 "UNKNOWN" (at_time 10 0 0) (at_time 12 0 0).

(** Cancelled thirty seconds after its creation. *)
Definition cancelled_fresh : Row.order :=
  row 4 "CANCELLED" (at_time 10 0 0) (at_time 10 0 30).

(** Modified two minutes before its creation time, still pending. *)
Definition skewed_pending : Row.order :=
  row 5 "PENDING" (at_time 10 0 0) (at_time 9 58 0).

(** Modified two minutes before its creation time, shipped. *)
Definition skewed_shipped : Row.order :=
  row 6 "SHIPPED" (at_time 10 0 0) (at_time 9 58 0).

(** Two rows written in the same instant. *)
Definition tied_a : Row.order := row 7 "SHIPPED" (at_time 8 0 0) (at_time 9 0 0).
Definition tied_b : Row.order := row 8 "DELIVERED" (at_time 8 0 0) (at_time 9 0 0).

(** A table with modification times 10:00:10 < 11:00:00 < 12:00:00. *)
Definition three_orders : list Row.order := [confirmed_fresh; shipped; unknown].

Definition always_acks : nat → send_outcome := λ _, Acked.

(** The broker refuses publish call number [k] and acknowledges the others. *)
Definition fails_at (k : nat) : nat → send_outcome :=
  λ n, if decide (n = k) then SendFailed else Acked.

(** The acknowledgement of publish call number [k] does not come in time. *)
Definition times_out_at (k : nat) : nat → send_outcome :=
  λ n, if decide (n = k) then AckTimeout else Acked.

End Sample.

(** ** The simulated monitors *)

(** One row of the [SELECT] of [monitor_inventory]: [product[0]] to
    [product[3]]. *)
Module ProductRow.
Record t := mk {
  product_id : Z;            (* product[0] *)
  product_name : string;     (* product[1] *)
  cost_price : Py.Decimal;   (* product[2] *)
  unit_price : Py.Decimal    (* product[3] *)
}.
End ProductRow.

(** The dataclass [InventoryEvent]. *)
Module InventoryEvent.
Record t := mk {
  product_id : Z;
  event_type : string;
  current_stock : Z;
  previous_stock : Z;
  reorder_point : Z;
  cost_per_unit : Py.float;
  timestamp : string;
  metadata : gmap string meta_value
}.
End InventoryEvent.

(** The [if]/[elif]/[else] of [monitor_inventory] that names the event. *)
Definition inventory_event_type (current_stock previous_stock reorder_point : Z) : string :=
  if current_stock <? reorder_point then "low_stock_alert"
  else if previous_stock <? current_stock then "restock"
  else "stock_change".

(** The body of [for product in products] in [monitor_inventory], up to
    the publish.  [stock_reading] is the integer that
    [int(time.time() % 100)] yields when the row is handled and [now] is
    what [datetime.now()] returns there. *)
Definition build_inventory_event (stock_reading : Z) (now : Py.datetime)
    (product : ProductRow.t) : InventoryEvent.t :=
  let current_stock := Z.max 0 stock_reading in
  let previous_stock := current_stock + 5 in
  let reorder_point := 20 in
  let event_type := inventory_event_type current_stock previous_stock reorder_point in
  {| InventoryEvent.product_id := ProductRow.product_id product;
     InventoryEvent.event_type := event_type;
     InventoryEvent.current_stock := current_stock;
     InventoryEvent.previous_stock := previous_stock;
     InventoryEvent.reorder_point := reorder_point;
     InventoryEvent.cost_per_unit := Py.float_of_Decimal (ProductRow.cost_price product);
     InventoryEvent.timestamp := Py.isoformat now;
     InventoryEvent.metadata :=
       {[ "product_name" := MStr (ProductRow.product_name product);
          "unit_price" := MFloat (Py.float_of_Decimal (ProductRow.unit_price product)) ]} |}.

(** One row of the [SELECT] of [simulate_customer_events]. *)
Module CustomerRow.
Record t := mk {
  customer_id : Z;           (* customer[0] *)
  customer_segment : string; (* customer[1] *)
  email : string             (* customer[2] *)
}.
End CustomerRow.

(** A value of an [action_details] dictionary. *)
Inductive detail_value :=
| DStr (s : string)
| DInt (n : Z).

(** The dataclass [CustomerEvent]. *)
Module CustomerEvent.
Record t := mk {
  customer_id : Z;
  event_type : string;
  customer_segment : string;
  action_details : gmap string detail_value;
  timestamp : string;
  metadata : gmap string meta_value
}.
End CustomerEvent.

(** The list [event_types] and the dictionary [action_details] of
    [simulate_customer_events]. *)
Definition event_types : list string :=
  ["login"; "cart_action"; "profile_update"; "page_view"].

Definition action_details : gmap string (gmap string detail_value) :=
  {[ "login" := {[ "device" := DStr "mobile"; "location" := DStr "USA" ]};
     "cart_action" := {[ "action" := DStr "add_item"; "product_id" := DInt 123 ]};
     "profile_update" := {[ "field" := DStr "email"; "old_value" := DStr "old@email.com" ]};
     "page_view" := {[ "page" := DStr "product_detail"; "product_id" := DInt 456 ]} ]}.

(** [l[i]] on a Python list: a negative index counts from the end, and
    an index outside [-len(l), len(l)) raises IndexError ([None]). *)
Definition list_getitem {A} (l : list A) (i : Z) : option A :=
  let n := Z.of_nat (length l) in
  if (0 <=? i) && (i <? n) then l !! Z.to_nat i
  else if (- n <=? i) && (i <? 0) then l !! Z.to_nat (n + i)
  else None.

(** [event_types[int(time.time()) % len(event_types)]], where [secs] is
    the integer [int(time.time())]; [%] on integers takes the sign of
    the divisor, as [Z.modulo] does. *)
Definition customer_event_type (secs : Z) : option string :=
  list_getitem event_types (secs mod Z.of_nat (length event_types)).

(** The body of [for customer in customers] in
    [simulate_customer_events], up to the publish; [None] when the
    indexing raises. *)
Definition build_customer_event (secs : Z) (now : Py.datetime)
    (customer : CustomerRow.t) : option CustomerEvent.t :=
  event_type ← customer_event_type secs;
  Some {| CustomerEvent.customer_id := CustomerRow.customer_id customer;
          CustomerEvent.event_type := event_type;
          CustomerEvent.customer_segment := CustomerRow.customer_segment customer;
          CustomerEvent.action_details := default ∅ (action_details !! event_type);
          CustomerEvent.timestamp := Py.isoformat now;
          CustomerEvent.metadata := {[ "email" := MStr (CustomerRow.email customer) ]} |}.

(** ** Notions for runs over a table *)

(** The modification time of a row on the time line. *)
Definition modified_us (r : Row.order) : Z := Py.timeline (Row.updated_at r).

(** No two rows of the table carry the same modification time. *)
Definition distinct_times (table : list Row.order) : Prop :=
  NoDup (modified_us <$> table).

(** Strictly earlier modification time. *)
Definition updated_lt (r1 r2 : Row.order) : Prop := modified_us r1 < modified_us r2.

(** The rows a query at watermark [wm] selects from the table, in the
    order of the [ORDER BY], before the [LIMIT] cuts them. *)
Definition pending (table : list Row.order) (wm : option Py.datetime) : list Row.order :=
  merge_sort updated_le (filter (selected (build_query wm)) table).


(** The log line of a delivered row. *)
Definition sent_log (r : Row.order) : log_record :=
  Info_event_sent "orders" (_determine_order_event_type r).

(** ** Reading the text of a datetime back *)

(** The number that a run of decimal digits at the head of a string
    spells, continuing from [acc], and the rest of the string. *)
Fixpoint read_digits (acc : N) (s : string) : N * string :=
  match s with
  | String c s' =>
      match Ascii.is_nat c with
      | Some d => read_digits (acc * 10 + N.of_nat d) s'
      | None => (acc, s)
      end
  | EmptyString => (acc, s)
  end.

Definition read_field (s : string) : Z * string :=
  let '(n, rest) := read_digits 0 s in (Z.of_N n, rest).

(** The rest of the string behind the character [c], when it starts
    with it. *)
Definition expect (c : ascii) (s : string) : option string :=
  match s with
  | String c' s' => if decide (c = c') then Some s' else None
  | EmptyString => None
  end.

(** Reads the fields of the text that [isoformat_sep] writes, with the
    separator [sep] between date and time, and gives what follows it. *)
Definition read_datetime (sep : ascii) (s : string) : option (Py.datetime * string) :=
  let '(y, s) := read_field s in
  s ← expect "-" s;
  let '(mo, s) := read_field s in
  s ← expect "-" s;
  let '(d, s) := read_field s in
  s ← expect sep s;
  let '(h, s) := read_field s in
  s ← expect ":" s;
  let '(mi, s) := read_field s in
  s ← expect ":" s;
  let '(sec, s) := read_field s in
  match expect "." s with
  | Some s' =>
      let '(us, s'') := read_field s' in
      Some (Py.mk_datetime y mo d h mi sec us, s'')
  | None => Some (Py.mk_datetime y mo d h mi sec 0, s)
  end.

(** No field of the datetime is negative, as in every datetime object. *)
Definition fields_nonneg (t : Py.datetime) : Prop :=
  0 ≤ Py.year t ∧ 0 ≤ Py.month t ∧ 0 ≤ Py.day t ∧ 0 ≤ Py.hour t
  ∧ 0 ≤ Py.minute t ∧ 0 ≤ Py.second t ∧ 0 ≤ Py.microsecond t.

(** A run of decimal digits, and the number it spells from [acc]. *)
Fixpoint all_digits (s : string) : Prop :=
  match s with
  | String c s' => is_Some (Ascii.is_nat c) ∧ all_digits s'
  | EmptyString => True
  end.

Fixpoint num (acc : N) (s : string) : N :=
  match s with
  | String c s' => num (acc * 10 + N.of_nat (default 0%nat (Ascii.is_nat c))) s'
  | EmptyString => acc
  end.

(** A string that a number or a fraction cannot run on into. *)
Definition ends_number (s : string) : Prop :=
  match s with
  | String c _ => Ascii.is_nat c = None ∧ c ≠ "."%char
  | EmptyString => True
  end.

(** Sample rows for the simulated monitors. *)
Module Demo.

Definition widget : ProductRow.t :=
  {| ProductRow.product_id := 11; ProductRow.product_name := "Widget";
     ProductRow.cost_price := Sample.price; ProductRow.unit_price := Sample.price |}.

Definition alice : CustomerRow.t :=
  {| CustomerRow.customer_id := 21; CustomerRow.customer_segment := "Premium";
     CustomerRow.email := "alice@example.com" |}.

(** A row with an unmapped status, as the seeding script writes them. *)
Definition completed : Row.order :=
  Sample.row 9 "COMPLETED" (Sample.at_time 7 0 0) (Sample.at_time 13 0 0).

End Demo.

(** * Properties *)

(** ** Time arithmetic *)

Lemma total_microseconds_new_timedelta d s us :
  Py.total_microseconds (Py.new_timedelta d s us) = (d * 86400 + s) * 1000000 + us.
Proof.
  unfold Py.total_microseconds, Py.new_timedelta; simpl.
  pose proof (Z.div_mod us 1000000 ltac:(lia)).
  pose proof (Z.div_mod (s + us / 1000000) 86400 ltac:(lia)).
  lia.
Qed.

Lemma total_microseconds_sub a b :
  Py.total_microseconds (Py.sub a b) = Py.timeline a - Py.timeline b.
Proof.
  unfold Py.sub. rewrite total_microseconds_new_timedelta.
  unfold Py.timeline. lia.
Qed.

Lemma abs_total_seconds_lt_sub a b n :
  Py.abs_total_seconds_lt (Py.sub a b) n = true
  ↔ Z.abs (Py.timeline a - Py.timeline b) < n * 1000000.
Proof.
  unfold Py.abs_total_seconds_lt. rewrite total_microseconds_sub.
  apply Z.ltb_lt.
Qed.

(** ** Classification *)

Lemma classify_fresh order :
  gap_us order < 60000000 → _determine_order_event_type order = "created".
Proof.
  intros Hgap. unfold _determine_order_event_type.
  destruct (Py.abs_total_seconds_lt _ 60) eqn:E; [done|].
  apply not_true_iff_false in E. exfalso. apply E.
  apply abs_total_seconds_lt_sub. exact Hgap.
Qed.

Lemma classify_stale order :
  60000000 ≤ gap_us order →
  _determine_order_event_type order
  = default "updated" (status_map !! Row.order_status order).
Proof.
  intros Hgap. unfold _determine_order_event_type.
  destruct (Py.abs_total_seconds_lt _ 60) eqn:E; [|done].
  apply abs_total_seconds_lt_sub in E. unfold gap_us in Hgap. lia.
Qed.

Lemma status_map_unmapped st :
  st ∉ ["PENDING"; "CONFIRMED"; "SHIPPED"; "DELIVERED"; "CANCELLED"] →
  status_map !! st = None.
Proof.
  intros Hst. unfold status_map.
  repeat (rewrite lookup_insert_ne; [|intros <-; apply Hst; set_solver]).
  apply lookup_singleton_ne. intros <-. apply Hst. set_solver.
Qed.

Lemma status_map_range st ev :
  status_map !! st = Some ev → ev ∈ order_event_types.
Proof.
  unfold status_map, order_event_types. intros H.
  repeat (apply lookup_insert_Some in H as [[_ <-]|[_ H]]; [set_solver|]).
  apply lookup_singleton_Some in H as [_ <-]. set_solver.
Qed.

Lemma classify_cases order :
  (gap_us order < 60000000 ∧ _determine_order_event_type order = "created")
  ∨ (60000000 ≤ gap_us order
     ∧ _determine_order_event_type order
       = default "updated" (status_map !! Row.order_status order)).
Proof.
  destruct (decide (gap_us order < 60000000)) as [H|H].
  - left. split; [done|]. by apply classify_fresh.
  - right. split; [lia|]. apply classify_stale. lia.
Qed.

Lemma classify_in_range order :
  _determine_order_event_type order ∈ order_event_types.
Proof.
  destruct (classify_cases order) as [[_ ->]|[_ ->]].
  - unfold order_event_types. set_solver.
  - destruct (status_map !! Row.order_status order) as [ev|] eqn:E; simpl.
    + by eapply status_map_range.
    + unfold order_event_types. set_solver.
Qed.

(** ** One publish, one row *)

Ltac unfold_M :=
  unfold mbind, M_bind, mret, M_ret, try_except, raise, modify, gets in *.

Lemma send_event_spec sink topic e s :
  send_event sink topic e s =
  match sink (publishes s) with
  | Acked =>
      (Ok tt, add_log (Info_event_sent topic (OrderEvent.event_type e))
                (add_acked topic e (add_publish topic e s)))
  | o =>
      (Raise (exn_of_outcome o),
       add_log (Error_send_failed topic (exn_of_outcome o)) (add_publish topic e s))
  end.
Proof.
  unfold send_event. unfold_M. simpl.
  destruct (sink (publishes s)); reflexivity.
Qed.

Lemma process_order_spec sink order s :
  process_order sink order s =
  match sink (publishes s) with
  | Acked =>
      (Ok tt,
       set_last_processed "orders" (Some (Row.updated_at order))
         (add_log (Info_event_sent "orders" (_determine_order_event_type order))
            (add_acked "orders" (build_order_event order)
               (add_publish "orders" (build_order_event order) s))))
  | o =>
      (Raise (exn_of_outcome o),
       add_log (Error_send_failed "orders" (exn_of_outcome o))
         (add_publish "orders" (build_order_event order) s))
  end.
Proof.
  unfold process_order. unfold mbind at 1. unfold M_bind.
  rewrite send_event_spec.
  destruct (sink (publishes s)); reflexivity.
Qed.

Lemma for_each_cons {A} (x : A) l body s :
  for_each (x :: l) body s =
  match body x s with
  | (Ok _, s') => for_each l body s'
  | (Raise e, s') => (Raise e, s')
  end.
Proof. reflexivity. Qed.

Lemma acked_prefix_le sink n len : (acked_prefix sink n len ≤ len)%nat.
Proof.
  revert n. induction len as [|len IH]; intros n; simpl; [lia|].
  destruct (sink n); [|lia..]. specialize (IH (S n)). lia.
Qed.

Lemma wm_after_cons wm r rows :
  wm_after wm (r :: rows) = wm_after (Some (Row.updated_at r)) rows.
Proof. unfold wm_after. rewrite last_cons. by destruct (last rows). Qed.

(** The loop over a batch: the rows before the first refused publish are
    delivered and the watermark follows them one by one; the loop ends
    normally exactly when no publish is refused. *)
Lemma for_each_process_order sink rows : ∀ s wm,
  last_processed s !! "orders" = Some wm →
  let k := acked_prefix sink (publishes s) (length rows) in
  let out := for_each rows (process_order sink) s in
  last_processed out.2 !! "orders" = Some (wm_after wm (take k rows))
  ∧ acked out.2 = acked s ++ (published <$> take k rows)
  ∧ running out.2 = running s
  ∧ (k = length rows → out.1 = Ok tt ∧ publishes out.2 = (publishes s + k)%nat)
  ∧ ((k < length rows)%nat →
      out.1 = Raise (exn_of_outcome (sink (publishes s + k)%nat))
      ∧ sink (publishes s + k)%nat ≠ Acked
      ∧ publishes out.2 = S (publishes s + k)).
Proof.
  induction rows as [|r rows IH]; intros s wm Hwm; cbn zeta.
  - simpl. rewrite app_nil_r, Nat.add_0_r.
    repeat split; try done; lia.
  - cbn [length acked_prefix].
    rewrite for_each_cons, process_order_spec.
    destruct (sink (publishes s)) eqn:Hs.
    + set (s1 := set_last_processed _ _ _).
      assert (H1 : last_processed s1 !! "orders" = Some (Some (Row.updated_at r)))
        by apply lookup_insert_eq.
      specialize (IH s1 _ H1). cbn zeta in IH.
      change (publishes s1) with (S (publishes s)) in IH.
      destruct IH as (Ha & Hb & Hc & Hd & He).
      cbn [take fmap list_fmap].
      split; [|split; [|split; [|split]]].
      * by rewrite Ha, wm_after_cons.
      * rewrite Hb. simpl. by rewrite <- app_assoc.
      * by rewrite Hc.
      * intros Hk. destruct Hd as [-> ->]; [lia|]. split; [done|lia].
      * intros Hk. destruct He as (-> & Hne & ->); [lia|].
        rewrite <- Nat.add_succ_comm. done.
    + simpl. rewrite app_nil_r, Nat.add_0_r, Hs.
      repeat split; try done; lia.
    + simpl. rewrite app_nil_r, Nat.add_0_r, Hs.
      repeat split; try done; lia.
Qed.

(** Every row up to and including the one whose publish is refused has
    been handed to the broker. *)
Lemma for_each_process_order_sent sink rows : ∀ s,
  let k := acked_prefix sink (publishes s) (length rows) in
  sent (for_each rows (process_order sink) s).2
  = sent s ++ (published <$> take (S k) rows).
Proof.
  induction rows as [|r rows IH]; intros s; cbn zeta.
  - simpl. by rewrite app_nil_r.
  - cbn [length acked_prefix].
    rewrite for_each_cons, process_order_spec.
    destruct (sink (publishes s)) eqn:Hs.
    + set (s1 := set_last_processed _ _ _).
      specialize (IH s1). cbn zeta in IH.
      change (publishes s1) with (S (publishes s)) in IH.
      rewrite IH. simpl. by rewrite <- app_assoc.
    + simpl. by destruct rows.
    + simpl. by destruct rows.
Qed.

(** ** One pass of the loop *)

(** A pass never lets an exception out: the handler logs it. *)
Lemma monitor_orders_cycle_returns sink src s :
  (monitor_orders_cycle sink src s).1 = Ok tt.
Proof.
  unfold monitor_orders_cycle, sleep.
  unfold mbind at 1; unfold M_bind, try_except.
  match goal with |- context [match ?m s with _ => _ end] => destruct (m s) as [[[]|e] s'] end;
    reflexivity.
Qed.

(** When the source cannot be reached or refuses the query, nothing is
    published and the dictionary of watermarks is as it was. *)
Lemma monitor_orders_cycle_source_fails sink src s :
  src = ConnectFails ∨ src = QueryFails →
  let s' := exec (monitor_orders_cycle sink src) s in
  last_processed s' = last_processed s
  ∧ acked s' = acked s
  ∧ publishes s' = publishes s
  ∧ running s' = running s
  ∧ sent s' = sent s.
Proof.
  intros [-> | ->]; cbn zeta; unfold exec, monitor_orders_cycle, sleep.
  - unfold_M. simpl. done.
  - unfold_M. simpl. unfold get_last_processed.
    destruct (last_processed s !! "orders"); simpl; done.
Qed.

(** When the source answers, the pass delivers the polled batch up to
    the first refused publish and leaves the watermark at the last row
    delivered. *)
Lemma monitor_orders_cycle_table sink table s wm :
  last_processed s !! "orders" = Some wm →
  let batch := poll_orders table wm in
  let k := acked_prefix sink (publishes s) (length batch) in
  let s' := exec (monitor_orders_cycle sink (Table table)) s in
  last_processed s' !! "orders" = Some (wm_after wm (take k batch))
  ∧ acked s' = acked s ++ (published <$> take k batch)
  ∧ running s' = running s
  ∧ publishes s' = (publishes s + (if decide (k = length batch) then k else S k))%nat.
Proof.
  intros Hwm. cbn zeta.
  pose proof (for_each_process_order sink (poll_orders table wm) s wm Hwm) as H.
  cbn zeta in H. destruct H as (Ha & Hb & Hc & Hd & He).
  unfold exec, monitor_orders_cycle, sleep, get_db_connection, execute_fetchall.
  unfold_M. unfold get_last_processed. rewrite Hwm.
  fold (poll_orders table wm).
  destruct (for_each (poll_orders table wm) (process_order sink) s) as [[[]|e] s1] eqn:E;
    simpl in *.
  - repeat split; try done.
    case_decide as Hk; [by destruct Hd|].
    destruct He as (? & _); [|done].
    pose proof (acked_prefix_le sink (publishes s) (length (poll_orders table wm))). lia.
  - repeat split; try done.
    case_decide as Hk; [by destruct Hd|].
    destruct He as (_ & _ & ->); [|lia].
    pose proof (acked_prefix_le sink (publishes s) (length (poll_orders table wm))). lia.
Qed.

(** ** The poll *)

#[local] Instance updated_le_total : Total updated_le.
Proof. intros r1 r2. unfold updated_le. lia. Qed.

#[local] Instance updated_le_trans : Transitive updated_le.
Proof. intros r1 r2 r3. unfold updated_le. lia. Qed.

Lemma build_query_where wm : where_updated_after (build_query wm) = wm.
Proof. by destruct wm. Qed.

Lemma selected_build_query wm r :
  selected (build_query wm) r ↔
  match wm with
  | None => True
  | Some w => Py.timeline w < Py.timeline (Row.updated_at r)
  end.
Proof. unfold selected. by rewrite build_query_where. Qed.

Lemma poll_orders_unfold table wm :
  poll_orders table wm
  = take 100 (merge_sort updated_le (filter (selected (build_query wm)) table)).
Proof. reflexivity. Qed.

Lemma poll_orders_sorted table wm : StronglySorted updated_le (poll_orders table wm).
Proof.
  rewrite poll_orders_unfold.
  set (l := merge_sort _ _).
  assert (Hs : StronglySorted updated_le l) by apply (StronglySorted_merge_sort _).
  rewrite <- (take_drop 100 l) in Hs.
  by apply StronglySorted_app_1_l in Hs.
Qed.

Lemma poll_orders_elem table wm r :
  r ∈ poll_orders table wm → r ∈ table ∧ selected (build_query wm) r.
Proof.
  rewrite poll_orders_unfold. intros Hr.
  apply (subseteq_take 100) in Hr.
  rewrite merge_sort_Permutation in Hr.
  by apply list_elem_of_filter in Hr as [? ?].
Qed.

Lemma poll_orders_length table wm : (length (poll_orders table wm) ≤ 100)%nat.
Proof. rewrite poll_orders_unfold, length_take. lia. Qed.

(** The rows the [LIMIT] cuts off are the latest ones. *)
Lemma poll_orders_rest table wm :
  ∃ rest,
    poll_orders table wm ++ rest ≡ₚ filter (selected (build_query wm)) table
    ∧ (∀ r r', r ∈ poll_orders table wm → r' ∈ rest → updated_le r r')
    ∧ (rest ≠ [] → length (poll_orders table wm) = 100%nat).
Proof.
  rewrite poll_orders_unfold.
  set (l := merge_sort _ _).
  exists (drop 100 l). split; [|split].
  - rewrite take_drop. apply merge_sort_Permutation.
  - intros r r' Hr Hr'.
    assert (Hs : StronglySorted updated_le l) by apply (StronglySorted_merge_sort _).
    rewrite <- (take_drop 100 l) in Hs.
    by eapply StronglySorted_app_1_elem_of.
  - intros Hne. rewrite length_take.
    destruct (decide (length l ≤ 100)%nat) as [Hle|]; [|lia].
    by rewrite drop_ge in Hne.
Qed.

(** The batch of a pass is the poll at the watermark the pass starts
    from. *)
Lemma monitor_orders_cycle_polls sink table s wm :
  last_processed s !! "orders" = Some wm →
  monitor_orders_cycle sink (Table table) s
  = (try_except (for_each (poll_orders table wm) (process_order sink))
       (λ e, modify (add_log (Error_monitoring_orders e)));; sleep 5) s.
Proof.
  intros Hwm. unfold monitor_orders_cycle, get_db_connection, execute_fetchall.
  unfold_M. unfold get_last_processed. rewrite Hwm. reflexivity.
Qed.

Lemma acked_prefix_first_refusal sink n len k :
  (k < len)%nat →
  (∀ j, (j < k)%nat → sink (n + j)%nat = Acked) →
  sink (n + k)%nat ≠ Acked →
  acked_prefix sink n len = k.
Proof.
  revert n len. induction k as [|k IH]; intros n len Hk Hacked Hfail.
  - destruct len as [|len]; [lia|]. simpl.
    rewrite Nat.add_0_r in Hfail. by destruct (sink n).
  - destruct len as [|len]; [lia|]. simpl.
    specialize (Hacked 0%nat ltac:(lia)) as H0. rewrite Nat.add_0_r in H0.
    rewrite H0. f_equal. apply IH; [lia| |].
    + intros j Hj. specialize (Hacked (S j) ltac:(lia)).
      by rewrite <- Nat.add_succ_comm in Hacked.
    + by rewrite Nat.add_succ_comm.
Qed.

Lemma acked_prefix_all sink n len :
  (∀ j, (j < len)%nat → sink (n + j)%nat = Acked) →
  acked_prefix sink n len = len.
Proof.
  revert n. induction len as [|len IH]; intros n Hacked; [done|]. simpl.
  specialize (Hacked 0%nat ltac:(lia)) as H0. rewrite Nat.add_0_r in H0.
  rewrite H0. f_equal. apply IH. intros j Hj.
  specialize (Hacked (S j) ltac:(lia)). by rewrite <- Nat.add_succ_comm in Hacked.
Qed.

Lemma wm_after_take wm (rows : list Row.order) k :
  (k ≤ length rows)%nat →
  wm_after wm (take k rows)
  = match k with
    | O => wm
    | S k' => Row.updated_at <$> rows !! k'
    end.
Proof.
  intros Hk. unfold wm_after. destruct k as [|k]; [by rewrite take_0|].
  rewrite last_lookup, length_take, Nat.min_l by done. simpl.
  rewrite lookup_take_lt by lia.
  destruct (lookup_lt_is_Some_2 rows k ltac:(lia)) as [r ->]. done.
Qed.

Lemma watermark_lookup s wm :
  last_processed s !! "orders" = Some wm → watermark s = wm.
Proof. unfold watermark. by intros ->. Qed.

(** ** Order of the rows of a batch and of the watermarks *)

Lemma StronglySorted_lookup_le {A} (R : relation A) (l : list A) i j x y :
  StronglySorted R l → (i < j)%nat → l !! i = Some x → l !! j = Some y → R x y.
Proof.
  intros Hs Hij Hi Hj.
  rewrite <- (take_drop j l) in Hs.
  eapply StronglySorted_app_1_elem_of; [exact Hs| |].
  - apply elem_of_take. eauto.
  - apply list_elem_of_lookup. exists 0%nat.
    by rewrite lookup_drop, Nat.add_0_r.
Qed.

Lemma wm_le_refl wm : wm_le wm wm.
Proof. unfold wm_le. destruct wm; [lia|done]. Qed.

Lemma wm_le_trans a b c : wm_le a b → wm_le b c → wm_le a c.
Proof. unfold wm_le. destruct a, b, c; try done; lia. Qed.

#[local] Instance wm_le_transitive : Transitive wm_le.
Proof. intros a b c. apply wm_le_trans. Qed.

(** Every row of a poll is later than the watermark it was polled at. *)
Lemma poll_orders_after_watermark table wm r :
  r ∈ poll_orders table wm → wm_le wm (Some (Row.updated_at r)).
Proof.
  intros Hr. apply poll_orders_elem in Hr as [_ Hsel].
  destruct wm as [w|]; [|done].
  apply (proj1 (selected_build_query _ _)) in Hsel.
  cbv beta iota in Hsel. unfold wm_le. lia.
Qed.

(** Delivering a prefix of a poll leaves the watermark no later than any
    row of the poll that was not delivered. *)
Lemma wm_after_poll_le table wm k j r :
  (k ≤ j)%nat → poll_orders table wm !! j = Some r →
  wm_le (wm_after wm (take k (poll_orders table wm))) (Some (Row.updated_at r)).
Proof.
  intros Hkj Hj. apply lookup_lt_Some in Hj as Hlt.
  rewrite wm_after_take by lia. destruct k as [|k].
  - eapply poll_orders_after_watermark, list_elem_of_lookup_2, Hj.
  - destruct (lookup_lt_is_Some_2 (poll_orders table wm) k ltac:(lia)) as [r' Hr'].
    rewrite Hr'. simpl.
    eapply (StronglySorted_lookup_le updated_le); [apply poll_orders_sorted| |done..]. lia.
Qed.

(** Delivering a prefix of a poll never moves the watermark back. *)
Lemma wm_after_poll_ge table wm k :
  wm_le wm (wm_after wm (take k (poll_orders table wm))).
Proof.
  unfold wm_after. destruct (last _) as [r|] eqn:E; [|apply wm_le_refl].
  apply poll_orders_after_watermark with table.
  apply last_Some_elem_of in E. by apply (subseteq_take k).
Qed.

(** The states of the loop over a batch carry the modification times of
    the rows delivered so far. *)
Lemma loop_states_process_order sink rows : ∀ s,
  let k := acked_prefix sink (publishes s) (length rows) in
  watermark <$> loop_states rows (process_order sink) s
  = (λ r, Some (Row.updated_at r)) <$> take k rows.
Proof.
  induction rows as [|r rows IH]; intros s; [done|].
  cbn [loop_states length acked_prefix]. rewrite process_order_spec.
  destruct (sink (publishes s)); [|done..].
  set (s1 := set_last_processed _ _ _).
  cbn zeta in IH. csimpl. rewrite (IH s1). f_equal.
  unfold watermark, s1. simpl. by rewrite lookup_insert_eq.
Qed.

Lemma loop_states_for_each {A} (l : list A) body : ∀ s,
  (for_each l body s).1 = Ok tt →
  last (s :: loop_states l body s) = Some (for_each l body s).2.
Proof.
  induction l as [|x l IH]; intros s Hok; [done|].
  rewrite for_each_cons in *. cbn [loop_states].
  destruct (body x s) as [[[]|e] s1]; [|done].
  rewrite last_cons_cons. by apply IH.
Qed.

(** ** The whole loop *)

Lemma exec_bind_ok {A B} (m : M A) (k : A → M B) s a :
  (m s).1 = Ok a → exec (m ≫= k) s = exec (k a) (exec m s).
Proof.
  unfold exec, mbind, M_bind. destruct (m s) as [[a'|e] s1]; simpl; [|done].
  by intros [= ->].
Qed.

Lemma monitor_orders_cycle_acked sink src s :
  ∃ rows, acked (exec (monitor_orders_cycle sink src) s) = acked s ++ (published <$> rows).
Proof.
  destruct src as [| |table].
  - exists []. rewrite app_nil_r.
    by apply (monitor_orders_cycle_source_fails sink ConnectFails s); left.
  - exists []. rewrite app_nil_r.
    by apply (monitor_orders_cycle_source_fails sink QueryFails s); right.
  - destruct (last_processed s !! "orders") as [wm|] eqn:Hwm.
    + eexists. by apply (monitor_orders_cycle_table sink table s wm Hwm).
    + exists []. rewrite app_nil_r.
      unfold exec, monitor_orders_cycle, sleep, get_db_connection.
      unfold_M. unfold get_last_processed. by rewrite Hwm.
Qed.

Lemma monitor_orders_cycle_sent sink src s :
  ∃ rows, sent (exec (monitor_orders_cycle sink src) s) = sent s ++ (published <$> rows).
Proof.
  destruct src as [| |table].
  - exists []. rewrite app_nil_r.
    by apply (monitor_orders_cycle_source_fails sink ConnectFails s); left.
  - exists []. rewrite app_nil_r.
    by apply (monitor_orders_cycle_source_fails sink QueryFails s); right.
  - unfold exec, monitor_orders_cycle, sleep, get_db_connection, execute_fetchall.
    unfold_M. unfold get_last_processed.
    destruct (last_processed s !! "orders") as [wm|] eqn:Hwm.
    + pose proof (for_each_process_order_sent sink (run_query table (build_query wm)) s) as H.
      cbn zeta in H.
      destruct (for_each _ (process_order sink) s) as [[[]|e] s1]; simpl in *; eauto.
    + exists []. by rewrite app_nil_r.
Qed.

(** Whatever a run of the loop hands to the broker, and whatever the
    broker acknowledges of it, is the event of a polled row on the
    orders topic. *)
Lemma monitor_orders_acked sink srcs : ∀ s,
  (∃ rows, acked (exec (monitor_orders sink srcs) s) = acked s ++ (published <$> rows))
  ∧ (∃ rows, sent (exec (monitor_orders sink srcs) s) = sent s ++ (published <$> rows)).
Proof.
  induction srcs as [|src srcs IH]; intros s.
  - split; exists []; by rewrite app_nil_r.
  - cbn [monitor_orders].
    rewrite (exec_bind_ok _ _ s (running s)) by done.
    change (exec (gets running) s) with s.
    destruct (running s).
    + rewrite (exec_bind_ok _ _ s tt) by apply monitor_orders_cycle_returns.
      destruct (monitor_orders_cycle_acked sink src s) as [rows1 H1].
      destruct (monitor_orders_cycle_sent sink src s) as [rows1' H1'].
      destruct (IH (exec (monitor_orders_cycle sink src) s)) as [[rows2 H2] [rows2' H2']].
      split.
      * exists (rows1 ++ rows2). by rewrite H2, H1, fmap_app, app_assoc.
      * exists (rows1' ++ rows2'). by rewrite H2', H1', fmap_app, app_assoc.
    + split; exists []; by rewrite app_nil_r.
Qed.

(** After a refused publish the watermark is no
    later than the modification time of the refused row and of every row
    behind it in the batch, an acknowledgement that times out counts as
    a refusal, and the refused row is selected again by the next query
    unless the row delivered just before it has the same modification
    time. *)
Lemma watermark_not_past_refused_row sink table s wm k failed :
  last_processed s !! "orders" = Some wm →
  poll_orders table wm !! k = Some failed →
  (∀ j, (j < k)%nat → sink (publishes s + j)%nat = Acked) →
  sink (publishes s + k)%nat ≠ Acked →
  let batch := poll_orders table wm in
  let s' := exec (monitor_orders_cycle sink (Table table)) s in
  (∀ j r, (k ≤ j)%nat → batch !! j = Some r →
     wm_le (watermark s') (Some (Row.updated_at r)))
  ∧ (match k with
     | O => True
     | S k' => ∀ r', batch !! k' = Some r' →
                 Py.timeline (Row.updated_at r') ≠ Py.timeline (Row.updated_at failed)
     end → selected (build_query (watermark s')) failed).
Proof.
  intros Hwm Hk Hacked Hfail batch s'.
  apply lookup_lt_Some in Hk as Hlt.
  destruct (monitor_orders_cycle_table sink table s wm Hwm) as (Ha & _).
  rewrite (acked_prefix_first_refusal _ _ _ k Hlt Hacked Hfail) in Ha.
  apply watermark_lookup in Ha. fold s' in Ha. split.
  - intros j r Hj Hr. rewrite Ha. by eapply wm_after_poll_le.
  - intros Hne. apply selected_build_query. rewrite Ha.
    rewrite wm_after_take by apply Nat.lt_le_incl, Hlt.
    destruct k as [|k'].
    + apply list_elem_of_lookup_2, poll_orders_elem in Hk as [_ Hsel].
      exact (proj1 (selected_build_query _ _) Hsel).
    + destruct (lookup_lt_is_Some_2 batch k' ltac:(unfold batch; lia)) as [r' Hr'].
      fold batch. rewrite Hr'. cbn [fmap option_fmap option_map].
      specialize (Hne r' Hr').
      assert (updated_le r' failed) as Hle.
      { eapply (StronglySorted_lookup_le updated_le batch k' (S k'));
          [apply poll_orders_sorted|lia|done..]. }
      unfold updated_le in Hle. lia.
Qed.

(** When the refused row has the modification time of the row delivered
    just before it, the watermark sits on that time and the next query,
    strictly after the watermark, does not select the refused row. *)
Lemma refused_row_not_selected_when_tied sink table s wm k prev failed :
  last_processed s !! "orders" = Some wm →
  poll_orders table wm !! k = Some prev →
  poll_orders table wm !! S k = Some failed →
  Py.timeline (Row.updated_at prev) = Py.timeline (Row.updated_at failed) →
  (∀ j, (j < S k)%nat → sink (publishes s + j)%nat = Acked) →
  sink (publishes s + S k)%nat ≠ Acked →
  let s' := exec (monitor_orders_cycle sink (Table table)) s in
  watermark s' = Some (Row.updated_at prev)
  ∧ ¬ selected (build_query (watermark s')) failed.
Proof.
  intros Hwm Hprev Hk Htie Hacked Hfail s'.
  apply lookup_lt_Some in Hk as Hlt.
  destruct (monitor_orders_cycle_table sink table s wm Hwm) as (Ha & _).
  rewrite (acked_prefix_first_refusal _ _ _ (S k) Hlt Hacked Hfail) in Ha.
  apply watermark_lookup in Ha. fold s' in Ha.
  rewrite wm_after_take, Hprev in Ha by lia. simpl in Ha.
  split; [exact Ha|]. rewrite Ha. intros Hsel.
  apply (proj1 (selected_build_query _ _)) in Hsel. cbv beta iota in Hsel. lia.
Qed.

(** A pass never moves the watermark back, whatever the source and the
    broker do. *)
Lemma monitor_orders_cycle_watermark_mono sink src s wm :
  last_processed s !! "orders" = Some wm →
  wm_le wm (watermark (exec (monitor_orders_cycle sink src) s)).
Proof.
  intros Hwm. destruct src as [| |table].
  - destruct (monitor_orders_cycle_source_fails sink ConnectFails s) as [H _]; [by left|].
    unfold watermark. rewrite H, Hwm. apply wm_le_refl.
  - destruct (monitor_orders_cycle_source_fails sink QueryFails s) as [H _]; [by right|].
    unfold watermark. rewrite H, Hwm. apply wm_le_refl.
  - destruct (monitor_orders_cycle_table sink table s wm Hwm) as [H _].
    rewrite (watermark_lookup _ _ H). apply wm_after_poll_ge.
Qed.

Lemma filter_selected_unset (table : list Row.order) :
  filter (selected (build_query None)) table = table.
Proof.
  induction table as [|r table IH]; [done|].
  rewrite filter_cons_True by done. by rewrite IH.
Qed.

(** A run that has delivered the three sample orders holds the watermark
    12:00:00 and polls nothing more from the table; after a restart the
    producer polls all three again and the broker gets each a second
    time. *)
Lemma restart_polls_from_the_beginning :
  let table := Sample.three_orders in
  let s := exec (monitor_orders Sample.always_acks [Table table]) init in
  let s' := exec (monitor_orders Sample.always_acks [Table table]) (restart s) in
  watermark s = Some (Sample.at_time 12 0 0)
  ∧ poll_orders table (watermark s) = []
  ∧ poll_orders table (watermark (restart s)) = table
  ∧ acked s = published <$> table
  ∧ acked s' = (published <$> table) ++ (published <$> table).
Proof. vm_compute. repeat split. Qed.

Lemma status_map_created st :
  default "updated" (status_map !! st) = "created" ↔ st = "PENDING".
Proof.
  split; [|by intros ->].
  destruct (status_map !! st) as [ev|] eqn:E; simpl; [|done].
  intros ->. unfold status_map in E.
  apply lookup_insert_Some in E as [[<- _]|[_ E]]; [done|].
  repeat (apply lookup_insert_Some in E as [[_ ?]|[_ E]]; [done|]).
  by apply lookup_singleton_Some in E as [_ ?].
Qed.

(** * The claims *)

(** C1, as stated, fails.  The table holds three orders with modification
    times 10:00:10 < 11:00:00 < 12:00:00, the producer is fresh (watermark
    unset), and the broker refuses the second publish.  The pass polls
    the three rows in that order, delivers the first, and ends with the
    watermark at the first row's modification time, not at the value it
    had before the batch. *)
Lemma C1_watermark_moves_before_failure :
  let table := Sample.three_orders in
  let sink := Sample.fails_at 1 in
  let s' := exec (monitor_orders_cycle sink (Table table)) init in
  poll_orders table (watermark init) = table
  ∧ sink 0%nat = Acked ∧ sink 1%nat = SendFailed
  ∧ sent s' = [published Sample.confirmed_fresh; published Sample.shipped]
  ∧ acked s' = [published Sample.confirmed_fresh]
  ∧ watermark init = None
  ∧ watermark s' = Some (Sample.at_time 10 0 10)
  ∧ watermark s' ≠ watermark init.
Proof. vm_compute. repeat split; congruence. Qed.

(** C1, amended.  The watermark is advanced after every delivered record:
    when the publish of the record at position [k] of the polled batch is
    the first that is not acknowledged, the records before it have been
    delivered and the watermark after the pass is the modification time
    of the record just before it; it is the value from before the batch
    only when the first publish is the one that fails. *)
Theorem C1_watermark_after_failed_publish sink table s wm k failed :
  last_processed s !! "orders" = Some wm →
  poll_orders table wm !! k = Some failed →
  (∀ j, (j < k)%nat → sink (publishes s + j)%nat = Acked) →
  sink (publishes s + k)%nat ≠ Acked →
  let batch := poll_orders table wm in
  let s' := exec (monitor_orders_cycle sink (Table table)) s in
  watermark s' = match k with
                 | O => wm
                 | S k' => Row.updated_at <$> batch !! k'
                 end
  ∧ acked s' = acked s ++ (published <$> take k batch).
Proof.
  intros Hwm Hk Hacked Hfail batch s'.
  apply lookup_lt_Some in Hk as Hlt.
  destruct (monitor_orders_cycle_table sink table s wm Hwm) as (Ha & Hb & _).
  rewrite (acked_prefix_first_refusal _ _ _ k Hlt Hacked Hfail) in Ha, Hb.
  subst s' batch. split; [|exact Hb].
  rewrite (watermark_lookup _ _ Ha). apply wm_after_take. lia.
Qed.

Lemma C1_watermark_after_failed_publish_witness :
  let table := Sample.three_orders in
  let sink := Sample.fails_at 1 in
  let s' := exec (monitor_orders_cycle sink (Table table)) init in
  watermark s' = Row.updated_at <$> poll_orders table None !! 0%nat
  ∧ acked s' = acked init ++ (published <$> take 1 (poll_orders table None)).
Proof.
  apply (C1_watermark_after_failed_publish (Sample.fails_at 1) Sample.three_orders
           init None 1 Sample.shipped).
  - reflexivity.
  - vm_compute. reflexivity.
  - intros j Hj. assert (j = 0%nat) as -> by lia. reflexivity.
  - vm_compute. discriminate.
Defined.

(** C2.  A record whose last-modified and created timestamps are less
    than 60 seconds apart is classified [created], whatever its status;
    so is the event built from it. *)
Theorem C2_fresh_order_is_created order :
  gap_us order < 60 * 1000000 →
  _determine_order_event_type order = "created"
  ∧ OrderEvent.event_type (build_order_event order) = "created".
Proof.
  intros Hgap. split; apply classify_fresh; lia.
Qed.

Lemma C2_fresh_order_is_created_witness :
  Row.order_status Sample.confirmed_fresh = "CONFIRMED"
  ∧ gap_us Sample.confirmed_fresh = 10 * 1000000
  ∧ _determine_order_event_type Sample.confirmed_fresh = "created"
  ∧ OrderEvent.event_type (build_order_event Sample.confirmed_fresh) = "created".
Proof.
  split; [reflexivity|]. split; [vm_compute; reflexivity|].
  apply (C2_fresh_order_is_created Sample.confirmed_fresh).
  vm_compute. reflexivity.
Defined.

(** C3.  A record whose timestamps are at least 60 seconds apart gets the
    event type of the status table, and [updated] when its status is not
    a key of the table; classification is a total function, so such a
    record is processed like any other: its pass of the loop body ends
    normally exactly when the broker acknowledges the publish, and the
    payload delivered then is the event of the row. *)
Theorem C3_stale_order_follows_status_table order :
  60 * 1000000 ≤ gap_us order →
  let status := Row.order_status order in
  let event_type := _determine_order_event_type order in
  (status = "PENDING" → event_type = "created")
  ∧ (status = "CONFIRMED" → event_type = "confirmed")
  ∧ (status = "SHIPPED" → event_type = "shipped")
  ∧ (status = "DELIVERED" → event_type = "delivered")
  ∧ (status = "CANCELLED" → event_type = "cancelled")
  ∧ (status ∉ ["PENDING"; "CONFIRMED"; "SHIPPED"; "DELIVERED"; "CANCELLED"] →
     event_type = "updated")
  ∧ (∀ sink s, (process_order sink order s).1 = Ok tt ↔ sink (publishes s) = Acked)
  ∧ (∀ sink s, sink (publishes s) = Acked →
       acked (exec (process_order sink order) s) = acked s ++ [published order]).
Proof.
  intros Hgap status event_type.
  assert (Hev : event_type = default "updated" (status_map !! status))
    by (apply classify_stale; lia).
  split_and!.
  1-5: intros Hst; rewrite Hev, Hst; reflexivity.
  - intros Hst. rewrite Hev, (status_map_unmapped _ Hst). reflexivity.
  - intros sink s. rewrite process_order_spec.
    by destruct (sink (publishes s)).
  - intros sink s Hs. unfold exec. rewrite process_order_spec, Hs. reflexivity.
Qed.

Lemma C3_stale_order_follows_status_table_witness :
  gap_us Sample.unknown = 7200 * 1000000
  ∧ _determine_order_event_type Sample.unknown = "updated"
  ∧ _determine_order_event_type Sample.shipped = "shipped"
  ∧ (process_order Sample.always_acks Sample.unknown init).1 = Ok tt.
Proof.
  split; [vm_compute; reflexivity|].
  pose proof (C3_stale_order_follows_status_table Sample.unknown) as Hu.
  pose proof (C3_stale_order_follows_status_table Sample.shipped) as Hs.
  cbn zeta in Hu, Hs.
  destruct Hu as (_ & _ & _ & _ & _ & Hu & Hp & _); [vm_compute; discriminate|].
  destruct Hs as (_ & _ & Hs & _); [vm_compute; discriminate|].
  split; [|split].
  - apply Hu. intros H.
    repeat (apply elem_of_cons in H as [H|H]; [discriminate|]).
    by apply elem_of_nil in H.
  - apply Hs. reflexivity.
  - apply Hp. reflexivity.
Defined.

(** C4.  A pass of the loop polls the table with the query built from
    its current watermark: the bound of the [WHERE] is the watermark (no
    [WHERE] when it is unset), a row is selected when its modification
    time is strictly later than the bound, the batch holds only selected
    rows of the table, in ascending order of modification time, at most
    100 of them, and the selected rows left out are no earlier than any
    row of the batch and are left out only by a full batch. *)
Theorem C4_poll_after_watermark_ascending_bounded sink table s wm :
  last_processed s !! "orders" = Some wm →
  let q := build_query wm in
  let batch := poll_orders table wm in
  monitor_orders_cycle sink (Table table) s
  = (try_except (for_each batch (process_order sink))
       (λ e, modify (add_log (Error_monitoring_orders e)));; sleep 5) s
  ∧ where_updated_after q = wm
  ∧ order_by_updated_at_asc q = true
  ∧ limit q = 100%nat
  ∧ (∀ r, selected q r ↔ match wm with
                          | None => True
                          | Some w => Py.timeline w < Py.timeline (Row.updated_at r)
                          end)
  ∧ (∀ r, r ∈ batch → r ∈ table ∧ selected q r)
  ∧ StronglySorted updated_le batch
  ∧ (length batch ≤ 100)%nat
  ∧ ∃ rest, batch ++ rest ≡ₚ filter (selected q) table
            ∧ (∀ r r', r ∈ batch → r' ∈ rest → updated_le r r')
            ∧ (rest ≠ [] → length batch = 100%nat).
Proof.
  intros Hwm q batch. split_and!.
  - by apply monitor_orders_cycle_polls.
  - apply build_query_where.
  - reflexivity.
  - reflexivity.
  - intros r. apply selected_build_query.
  - intros r. apply poll_orders_elem.
  - apply poll_orders_sorted.
  - apply poll_orders_length.
  - apply poll_orders_rest.
Qed.

Lemma C4_poll_after_watermark_ascending_bounded_witness :
  let s := set_last_processed "orders" (Some (Sample.at_time 10 0 10)) init in
  let table := [Sample.unknown; Sample.confirmed_fresh; Sample.shipped] in
  last_processed s !! "orders" = Some (Some (Sample.at_time 10 0 10))
  ∧ poll_orders table (Some (Sample.at_time 10 0 10)) = [Sample.shipped; Sample.unknown]
  ∧ StronglySorted updated_le (poll_orders table (Some (Sample.at_time 10 0 10)))
  ∧ (length (poll_orders table (Some (Sample.at_time 10 0 10))) ≤ 100)%nat.
Proof.
  intros s table.
  pose proof (C4_poll_after_watermark_ascending_bounded Sample.always_acks table s
                (Some (Sample.at_time 10 0 10)) eq_refl) as H.
  cbn zeta in H. destruct H as (_ & _ & _ & _ & _ & _ & Hsorted & Hlen & _).
  split; [reflexivity|]. split; [vm_compute; reflexivity|]. split; assumption.
Defined.

(** C5, at an input where the code falls short of it.  Two orders carry
    the same modification time; the producer is fresh and the broker
    acknowledges the first publish and refuses the second.  The pass
    leaves the watermark at the modification time of the delivered row,
    which is also that of the row whose publish failed, and the next
    poll, strictly after the watermark, no longer returns that row. *)
Theorem C5_tied_row_skipped_after_failed_publish :
  let table := [Sample.tied_a; Sample.tied_b] in
  let sink := Sample.fails_at 1 in
  let s' := exec (monitor_orders_cycle sink (Table table)) init in
  poll_orders table (watermark init) = [Sample.tied_a; Sample.tied_b]
  ∧ sink 1%nat = SendFailed
  ∧ sent s' = [published Sample.tied_a; published Sample.tied_b]
  ∧ acked s' = [published Sample.tied_a]
  ∧ watermark s' = Some (Row.updated_at Sample.tied_b)
  ∧ poll_orders table (watermark s') = [].
Proof. vm_compute. repeat split. Qed.

(** C6.  An acknowledged pass of the loop body sets the watermark to the
    record's modification time, and over records in ascending order of
    modification time the watermarks after each processed record are
    those modification times, a non-decreasing sequence; when every
    publish is acknowledged there is one per record. *)
Theorem C6_watermark_sequence_non_decreasing sink rows s :
  Sorted updated_le rows →
  let states := loop_states rows (process_order sink) s in
  (∀ order s0, sink (publishes s0) = Acked →
     watermark (exec (process_order sink order) s0) = Some (Row.updated_at order))
  ∧ watermark <$> states
    = (λ r, Some (Row.updated_at r)) <$> take (length states) rows
  ∧ StronglySorted wm_le (watermark <$> states)
  ∧ ((∀ j, (j < length rows)%nat → sink (publishes s + j)%nat = Acked) →
     length states = length rows
     ∧ last (s :: states) = Some (for_each rows (process_order sink) s).2).
Proof.
  intros Hsorted states.
  pose proof (loop_states_process_order sink rows s) as Hst. cbn zeta in Hst.
  fold states in Hst.
  assert (Hlen : length states = acked_prefix sink (publishes s) (length rows)).
  { apply (f_equal length) in Hst. rewrite !length_fmap, length_take in Hst.
    pose proof (acked_prefix_le sink (publishes s) (length rows)). lia. }
  split_and!.
  - intros order s0 Hs0. unfold exec. rewrite process_order_spec, Hs0.
    unfold watermark. simpl. by rewrite lookup_insert_eq.
  - by rewrite Hlen.
  - rewrite Hst. apply Sorted_StronglySorted in Hsorted; [|apply _].
    rewrite <- (take_drop (acked_prefix sink (publishes s) (length rows)) rows) in Hsorted.
    apply StronglySorted_app_1_l in Hsorted.
    eapply StronglySorted_fmap; [|exact Hsorted]. intros x y Hxy. exact Hxy.
  - intros Hall. rewrite Hlen. split; [by apply acked_prefix_all|].
    apply loop_states_for_each.
    destruct (last_processed s !! "orders") as [wm|] eqn:Hwm.
    + destruct (for_each_process_order sink rows s wm Hwm) as (_ & _ & _ & Hok & _).
      apply Hok. by apply acked_prefix_all.
    + clear -Hall. revert s Hall. induction rows as [|r rows IH]; intros s Hall; [done|].
      rewrite for_each_cons, process_order_spec.
      specialize (Hall 0%nat ltac:(simpl; lia)) as H0. rewrite Nat.add_0_r in H0.
      rewrite H0. apply IH. intros j Hj. simpl.
      specialize (Hall (S j) ltac:(simpl; lia)). by rewrite <- Nat.add_succ_comm in Hall.
Qed.

Lemma C6_watermark_sequence_non_decreasing_witness :
  let states := loop_states Sample.three_orders (process_order Sample.always_acks) init in
  Sorted updated_le Sample.three_orders
  ∧ watermark <$> states
    = [Some (Sample.at_time 10 0 10); Some (Sample.at_time 11 0 0);
       Some (Sample.at_time 12 0 0)]
  ∧ StronglySorted wm_le (watermark <$> states).
Proof.
  intros states.
  assert (Hs : Sorted updated_le Sample.three_orders).
  { repeat constructor; vm_compute; discriminate. }
  pose proof (C6_watermark_sequence_non_decreasing Sample.always_acks
                Sample.three_orders init Hs) as H.
  cbn zeta in H. destruct H as (_ & _ & Hsorted & _).
  split; [exact Hs|]. split; [vm_compute; reflexivity|exact Hsorted].
Defined.

(** C7.  Classification only yields one of the six known event types,
    and every payload that any run of the loop hands to the broker,
    acknowledged or not, goes to the orders topic and carries one of
    them. *)
Theorem C7_event_type_in_known_set :
  (∀ order, _determine_order_event_type order ∈ order_event_types)
  ∧ (∀ order, OrderEvent.event_type (build_order_event order) ∈ order_event_types)
  ∧ (∀ sink srcs s, ∃ events,
       sent (exec (monitor_orders sink srcs) s) = sent s ++ events
       ∧ Forall (λ te, te.1 = "orders"
                       ∧ OrderEvent.event_type te.2 ∈ order_event_types) events)
  ∧ (∀ sink srcs s, ∃ events,
       acked (exec (monitor_orders sink srcs) s) = acked s ++ events
       ∧ Forall (λ te, te.1 = "orders"
                       ∧ OrderEvent.event_type te.2 ∈ order_event_types) events).
Proof.
  assert (Hall : ∀ rows : list Row.order,
            Forall (λ te, te.1 = "orders"
                          ∧ OrderEvent.event_type te.2 ∈ order_event_types)
                   (published <$> rows)).
  { intros rows. apply Forall_fmap, Forall_forall. intros r _. split; [done|].
    apply classify_in_range. }
  split_and!.
  - apply classify_in_range.
  - intros order. apply classify_in_range.
  - intros sink srcs s.
    destruct (monitor_orders_acked sink srcs s) as [_ [rows Hrows]].
    exists (published <$> rows). split; [done|apply Hall].
  - intros sink srcs s.
    destruct (monitor_orders_acked sink srcs s) as [[rows Hrows] _].
    exists (published <$> rows). split; [done|apply Hall].
Qed.

(** C8.  A producer starts with the watermark of every monitored table
    unset; the query of its first pass has no [WHERE], so it selects
    every row of the table, and the batch is the start of the table in
    ascending order of modification time (the whole table when it has no
    more than 100 rows).  The watermark lives in the producer object
    only: whatever state a run has reached, a restart sets it back to
    unset, and the first pass after it polls in the same way. *)
Theorem C8_first_pass_selects_all_rows :
  (∀ t, t ∈ ["orders"; "products"; "customers"] → last_processed init !! t = Some None)
  ∧ watermark init = None
  ∧ where_updated_after (build_query (watermark init)) = None
  ∧ where_clause_text (build_query (watermark init)) = ""
  ∧ (∀ r, selected (build_query (watermark init)) r)
  ∧ (∀ table : list Row.order,
       filter (selected (build_query (watermark init))) table = table)
  ∧ (∀ table, poll_orders table (watermark init)
              = take 100 (merge_sort updated_le table))
  ∧ (∀ table, (length table ≤ 100)%nat → poll_orders table (watermark init) ≡ₚ table)
  ∧ (∀ sink table,
       monitor_orders_cycle sink (Table table) init
       = (try_except (for_each (poll_orders table None) (process_order sink))
            (λ e, modify (add_log (Error_monitoring_orders e)));; sleep 5) init)
  ∧ (∀ s, last_processed (restart s) = last_processed init
          ∧ watermark (restart s) = None)
  ∧ (∀ s sink table,
       monitor_orders_cycle sink (Table table) (restart s)
       = (try_except (for_each (poll_orders table None) (process_order sink))
            (λ e, modify (add_log (Error_monitoring_orders e)));; sleep 5) (restart s)).
Proof.
  change (watermark init) with (@None Py.datetime).
  split_and!; try done.
  - intros t Ht. repeat (apply elem_of_cons in Ht as [->|Ht]; [done|]).
    by apply elem_of_nil in Ht.
  - apply filter_selected_unset.
  - intros table. by rewrite poll_orders_unfold, filter_selected_unset.
  - intros table Hlen. rewrite poll_orders_unfold, filter_selected_unset.
    rewrite take_ge; [apply merge_sort_Permutation|].
    by rewrite merge_sort_Permutation.
Qed.

Lemma C8_first_pass_selects_all_rows_witness :
  poll_orders [Sample.unknown; Sample.confirmed_fresh; Sample.shipped] (watermark init)
  ≡ₚ [Sample.unknown; Sample.confirmed_fresh; Sample.shipped].
Proof.
  apply C8_first_pass_selects_all_rows. simpl. lia.
Defined.

(** C9, as stated, fails.  The sample row was modified two minutes
    before its creation time and its status is PENDING: the absolute
    difference is not under 60 seconds, and it is classified [created]
    all the same, by the status table. *)
Lemma C9_skewed_pending_is_created :
  Py.timeline (Row.updated_at Sample.skewed_pending)
  < Py.timeline (Row.created_at Sample.skewed_pending)
  ∧ gap_us Sample.skewed_pending = 120 * 1000000
  ∧ ¬ gap_us Sample.skewed_pending < 60 * 1000000
  ∧ _determine_order_event_type Sample.skewed_pending = "created".
Proof. vm_compute. repeat split; discriminate. Qed.

(** C9, amended.  The freshness test is on the absolute difference of the
    two timestamps: for a record modified before its creation time it
    succeeds exactly when the record was modified less than 60 seconds
    before.  Otherwise the record falls through to the status table, so
    such a record is classified [created] if and only if the absolute
    difference is under 60 seconds or its status is PENDING. *)
Theorem C9_skewed_order_classification order :
  Py.timeline (Row.updated_at order) < Py.timeline (Row.created_at order) →
  gap_us order
  = Py.timeline (Row.created_at order) - Py.timeline (Row.updated_at order)
  ∧ (Py.abs_total_seconds_lt (Py.sub (Row.updated_at order) (Row.created_at order)) 60
     = true ↔ gap_us order < 60 * 1000000)
  ∧ (60 * 1000000 ≤ gap_us order →
     _determine_order_event_type order
     = default "updated" (status_map !! Row.order_status order))
  ∧ (_determine_order_event_type order = "created"
     ↔ gap_us order < 60 * 1000000 ∨ Row.order_status order = "PENDING").
Proof.
  intros Hskew. split_and!.
  - unfold gap_us. lia.
  - apply abs_total_seconds_lt_sub.
  - intros Hgap. apply classify_stale. lia.
  - destruct (classify_cases order) as [[Hgap ->]|[Hgap ->]].
    + split; [intros _; left; lia|done].
    + rewrite status_map_created. split; [by right|]. intros [?|?]; [lia|done].
Qed.

Lemma C9_skewed_order_classification_witness :
  _determine_order_event_type Sample.skewed_shipped = "shipped"
  ∧ (_determine_order_event_type Sample.skewed_pending = "created"
     ↔ gap_us Sample.skewed_pending < 60 * 1000000
       ∨ Row.order_status Sample.skewed_pending = "PENDING").
Proof.
  split.
  - pose proof (C9_skewed_order_classification Sample.skewed_shipped) as H.
    destruct H as (_ & _ & H & _); [vm_compute; reflexivity|].
    rewrite H; [reflexivity|vm_compute; discriminate].
  - apply (C9_skewed_order_classification Sample.skewed_pending).
    vm_compute. reflexivity.
Defined.

(** C10.  The event built from a row carries the row's status string as
    it is and the ISO form of the row's modification time; it is made
    from the row alone, so nothing of the time of sending enters it.
    The event type may disagree with the status: a CANCELLED row
    modified within 60 seconds of its creation is sent as [created] with
    status CANCELLED.  Every payload a run hands to the broker is the
    event of a polled row. *)
Theorem C10_event_keeps_status_and_modification_time order :
  OrderEvent.order_status (build_order_event order) = Row.order_status order
  ∧ OrderEvent.timestamp (build_order_event order)
    = Py.isoformat (Row.updated_at order)
  ∧ (Row.order_status order = "CANCELLED" → gap_us order < 60 * 1000000 →
     OrderEvent.event_type (build_order_event order) = "created"
     ∧ OrderEvent.order_status (build_order_event order) = "CANCELLED")
  ∧ (∀ sink s,
       sent (exec (process_order sink order) s)
       = sent s ++ [("orders", build_order_event order)])
  ∧ (∀ sink srcs s, ∃ rows,
       sent (exec (monitor_orders sink srcs) s)
       = sent s ++ ((λ r, ("orders", build_order_event r)) <$> rows)).
Proof.
  split_and!; try done.
  - intros Hst Hgap. split; [|exact Hst]. apply classify_fresh. lia.
  - intros sink s. unfold exec. rewrite process_order_spec.
    by destruct (sink (publishes s)).
  - intros sink srcs s. apply monitor_orders_acked.
Qed.

Lemma C10_event_keeps_status_and_modification_time_witness :
  let e := build_order_event Sample.cancelled_fresh in
  OrderEvent.event_type e = "created"
  ∧ OrderEvent.order_status e = "CANCELLED"
  ∧ OrderEvent.timestamp e = "2024-03-05T10:00:30".
Proof.
  pose proof (C10_event_keeps_status_and_modification_time Sample.cancelled_fresh) as H.
  destruct H as (_ & Ht & Hc & _).
  destruct Hc as [Hty Hst]; [reflexivity|vm_compute; reflexivity|].
  cbn zeta. split; [exact Hty|]. split; [exact Hst|].
  rewrite Ht. vm_compute. reflexivity.
Defined.

(** * Further properties of the producer *)

(** ** Classification, read backwards *)

Lemma status_map_lookup_cases st :
  (st = "PENDING" ∧ status_map !! st = Some "created")
  ∨ (st = "CONFIRMED" ∧ status_map !! st = Some "confirmed")
  ∨ (st = "SHIPPED" ∧ status_map !! st = Some "shipped")
  ∨ (st = "DELIVERED" ∧ status_map !! st = Some "delivered")
  ∨ (st = "CANCELLED" ∧ status_map !! st = Some "cancelled")
  ∨ ((st ∉ ["PENDING"; "CONFIRMED"; "SHIPPED"; "DELIVERED"; "CANCELLED"])
     ∧ status_map !! st = None).
Proof.
  destruct (decide (st = "PENDING")) as [->|H1]; [by left|right].
  destruct (decide (st = "CONFIRMED")) as [->|H2]; [by left|right].
  destruct (decide (st = "SHIPPED")) as [->|H3]; [by left|right].
  destruct (decide (st = "DELIVERED")) as [->|H4]; [by left|right].
  destruct (decide (st = "CANCELLED")) as [->|H5]; [by left|right].
  assert (Hst : st ∉ ["PENDING"; "CONFIRMED"; "SHIPPED"; "DELIVERED"; "CANCELLED"]).
  { intros H. repeat (apply elem_of_cons in H as [H|H]; [done|]).
    by apply elem_of_nil in H. }
  split; [done|]. by apply status_map_unmapped.
Qed.

(** X1.  The event type tells the row it came from: a type other than
    [created] is only given to a row whose two timestamps are at least
    60 seconds apart, [confirmed], [shipped], [delivered] and
    [cancelled] only when the status is the matching key of the table,
    and [updated] only when the status is none of the five keys. *)
Theorem X1_event_type_read_backwards order :
  let event_type := _determine_order_event_type order in
  let status := Row.order_status order in
  (event_type = "confirmed" ↔ 60 * 1000000 ≤ gap_us order ∧ status = "CONFIRMED")
  ∧ (event_type = "shipped" ↔ 60 * 1000000 ≤ gap_us order ∧ status = "SHIPPED")
  ∧ (event_type = "delivered" ↔ 60 * 1000000 ≤ gap_us order ∧ status = "DELIVERED")
  ∧ (event_type = "cancelled" ↔ 60 * 1000000 ≤ gap_us order ∧ status = "CANCELLED")
  ∧ (event_type = "updated"
     ↔ 60 * 1000000 ≤ gap_us order
       ∧ (status ∉ ["PENDING"; "CONFIRMED"; "SHIPPED"; "DELIVERED"; "CANCELLED"])).
Proof.
  intros event_type status. subst event_type status.
  destruct (classify_cases order) as [[Hgap ->]|[Hgap ->]].
  - split_and!; (split; [done|intros [? _]; lia]).
  - destruct (status_map_lookup_cases (Row.order_status order))
      as [[Hs ->]|[[Hs ->]|[[Hs ->]|[[Hs ->]|[[Hs ->]|[Hs ->]]]]]];
      cbn [default from_option]; split_and!.
    all: split.
    all: try (intros Heq; discriminate Heq).
    all: try (intros _; split; [lia|exact Hs]).
    all: try (intros [_ HP]; reflexivity).
    all: try (intros [_ HP]; rewrite Hs in HP; discriminate HP).
    all: try (intros [_ HP]; exfalso; apply HP; rewrite Hs;
              repeat first [apply list_elem_of_here | apply list_elem_of_further]).
    all: intros [_ HP]; exfalso; apply Hs; rewrite HP;
         repeat first [apply list_elem_of_here | apply list_elem_of_further].
Qed.

(** ** The inventory monitor *)

(** X2.  The inventory event of a product records a stock that is never
    negative and a previous stock that is five more; so the branch that
    would name the event [restock] is never taken: the event is
    [low_stock_alert] when the stock is below 20 and [stock_change]
    otherwise. *)
Theorem X2_inventory_event_never_restock stock_reading now product :
  let e := build_inventory_event stock_reading now product in
  0 ≤ InventoryEvent.current_stock e
  ∧ stock_reading ≤ InventoryEvent.current_stock e
  ∧ InventoryEvent.previous_stock e = InventoryEvent.current_stock e + 5
  ∧ InventoryEvent.reorder_point e = 20
  ∧ InventoryEvent.event_type e ≠ "restock"
  ∧ (InventoryEvent.event_type e = "low_stock_alert"
     ↔ InventoryEvent.current_stock e < 20)
  ∧ (InventoryEvent.event_type e = "stock_change"
     ↔ 20 ≤ InventoryEvent.current_stock e).
Proof.
  cbn zeta. unfold build_inventory_event, inventory_event_type. cbn [
    InventoryEvent.current_stock InventoryEvent.previous_stock
    InventoryEvent.reorder_point InventoryEvent.event_type].
  set (c := Z.max 0 stock_reading).
  assert (0 ≤ c ∧ stock_reading ≤ c) as [? ?] by (unfold c; lia).
  destruct (c <? 20) eqn:E1.
  - apply Z.ltb_lt in E1. split_and!; try done; try lia. split; [done|lia].
  - apply Z.ltb_ge in E1.
    destruct (c + 5 <? c) eqn:E2; [apply Z.ltb_lt in E2; lia|].
    split_and!; try done; try lia. split; [done|lia].
Qed.

(** ** The customer simulation *)

Lemma customer_event_type_cases secs :
  (secs mod 4 = 0 ∧ customer_event_type secs = Some "login")
  ∨ (secs mod 4 = 1 ∧ customer_event_type secs = Some "cart_action")
  ∨ (secs mod 4 = 2 ∧ customer_event_type secs = Some "profile_update")
  ∨ (secs mod 4 = 3 ∧ customer_event_type secs = Some "page_view").
Proof.
  unfold customer_event_type.
  change (Z.of_nat (length event_types)) with 4.
  pose proof (Z.mod_pos_bound secs 4 ltac:(lia)) as Hb.
  remember (secs mod 4) as i eqn:Hi. clear Hi.
  assert (i = 0 ∨ i = 1 ∨ i = 2 ∨ i = 3) as [-> | [-> | [-> | ->]]] by lia;
    [left|right; left|right; right; left|right; right; right]; done.
Qed.

(** X3.  For every clock reading, also one before the epoch, the index
    into [event_types] is in range, so a customer event is always built;
    its type is one of the four listed, and its details are the entry of
    [action_details] for that type: the empty default of the lookup is
    never used. *)
Theorem X3_customer_event_always_built secs now customer :
  ∃ e, build_customer_event secs now customer = Some e
       ∧ event_types !! Z.to_nat (secs mod 4) = Some (CustomerEvent.event_type e)
       ∧ CustomerEvent.event_type e ∈ event_types
       ∧ action_details !! CustomerEvent.event_type e
         = Some (CustomerEvent.action_details e)
       ∧ CustomerEvent.action_details e ≠ ∅
       ∧ CustomerEvent.customer_id e = CustomerRow.customer_id customer
       ∧ CustomerEvent.timestamp e = Py.isoformat now.
Proof.
  unfold build_customer_event.
  destruct (customer_event_type_cases secs)
    as [[Hm ->]|[[Hm ->]|[[Hm ->]|[Hm ->]]]];
    simpl; eexists; (split; [reflexivity|]); rewrite Hm; simpl;
    (split_and!; [done|unfold event_types; set_solver|done| |done|done]);
    intros H; apply (f_equal (λ m : gmap string detail_value, size m)) in H;
    vm_compute in H; discriminate.
Qed.

(** X4.  The customer event types go round by the second: readings four
    seconds apart give the same type, and readings one, two or three
    seconds apart give different ones. *)
Theorem X4_customer_event_type_round_robin secs d :
  0 < d < 4 →
  customer_event_type (secs + 4) = customer_event_type secs
  ∧ customer_event_type (secs + d) ≠ customer_event_type secs.
Proof.
  intros Hd.
  assert (H4 : (secs + 4) mod 4 = secs mod 4).
  { rewrite <- (Z.mul_1_l 4) at 1. apply Z.mod_add. lia. }
  assert (Hne : (secs + d) mod 4 ≠ secs mod 4).
  { intros Heq.
    pose proof (Z.mod_pos_bound secs 4 ltac:(lia)).
    pose proof (Z.mod_pos_bound (secs + d) 4 ltac:(lia)).
    pose proof (Z.div_mod secs 4 ltac:(lia)).
    pose proof (Z.div_mod (secs + d) 4 ltac:(lia)). lia. }
  split.
  - destruct (customer_event_type_cases secs) as [[Hm ->]|[[Hm ->]|[[Hm ->]|[Hm ->]]]];
      destruct (customer_event_type_cases (secs + 4))
        as [[Hm' ->]|[[Hm' ->]|[[Hm' ->]|[Hm' ->]]]]; try done; lia.
  - destruct (customer_event_type_cases secs) as [[Hm ->]|[[Hm ->]|[[Hm ->]|[Hm ->]]]];
      destruct (customer_event_type_cases (secs + d))
        as [[Hm' ->]|[[Hm' ->]|[[Hm' ->]|[Hm' ->]]]]; try done; lia.
Qed.

Lemma X4_customer_event_type_round_robin_witness :
  customer_event_type (1700000000 + 4) = customer_event_type 1700000000
  ∧ customer_event_type (1700000000 + 1) ≠ customer_event_type 1700000000.
Proof. apply (X4_customer_event_type_round_robin 1700000000 1). lia. Defined.

(** ** What a pass writes *)

(** The log line of a delivered row. *)
Lemma for_each_process_order_log sink rows : ∀ s,
  let k := acked_prefix sink (publishes s) (length rows) in
  log (for_each rows (process_order sink) s).2
  = log s
    ++ ((λ r, Info_event_sent "orders" (_determine_order_event_type r)) <$> take k rows)
    ++ (if decide (k = length rows) then []
        else [Error_send_failed "orders" (exn_of_outcome (sink (publishes s + k)%nat))]).
Proof.
  induction rows as [|r rows IH]; intros s; cbn zeta.
  - simpl. by rewrite app_nil_r.
  - cbn [length acked_prefix].
    rewrite for_each_cons, process_order_spec.
    destruct (sink (publishes s)) eqn:Hs.
    + set (s1 := set_last_processed _ _ _).
      specialize (IH s1). cbn zeta in IH.
      change (publishes s1) with (S (publishes s)) in IH.
      rewrite IH. cbn [take fmap list_fmap]. simpl log.
      rewrite <- !app_assoc. cbn [app]. f_equal. f_equal. f_equal.
      rewrite <- Nat.add_succ_comm.
      repeat case_decide; try done; lia.
    + simpl. rewrite Nat.add_0_r, Hs. done.
    + simpl. rewrite Nat.add_0_r, Hs. done.
Qed.

Lemma for_each_process_order_other_keys sink rows key : ∀ s,
  key ≠ "orders" →
  last_processed (for_each rows (process_order sink) s).2 !! key
  = last_processed s !! key.
Proof.
  induction rows as [|r rows IH]; intros s Hkey; [done|].
  rewrite for_each_cons, process_order_spec.
  destruct (sink (publishes s)); [|done..].
  rewrite IH by done. simpl. by rewrite lookup_insert_ne.
Qed.

(** The state after a pass over a table, from the loop over the batch. *)
Lemma monitor_orders_cycle_exec sink table s wm :
  last_processed s !! "orders" = Some wm →
  exec (monitor_orders_cycle sink (Table table)) s
  = let out := for_each (poll_orders table wm) (process_order sink) s in
    match out.1 with
    | Ok _ => out.2
    | Raise e => add_log (Error_monitoring_orders e) out.2
    end.
Proof.
  intros Hwm. unfold exec. rewrite (monitor_orders_cycle_polls _ _ _ _ Hwm).
  unfold sleep. unfold_M. cbn zeta.
  by destruct (for_each _ _ s) as [[[]|e] s1].
Qed.

Lemma monitor_orders_cycle_no_key sink table s :
  last_processed s !! "orders" = None →
  exec (monitor_orders_cycle sink (Table table)) s
  = add_log (Error_monitoring_orders KeyError) s.
Proof.
  intros Hwm. unfold exec, monitor_orders_cycle, sleep, get_db_connection.
  unfold_M. unfold get_last_processed. by rewrite Hwm.
Qed.

Lemma monitor_orders_cycle_log sink table s wm :
  last_processed s !! "orders" = Some wm →
  let batch := poll_orders table wm in
  let k := acked_prefix sink (publishes s) (length batch) in
  let e := exn_of_outcome (sink (publishes s + k)%nat) in
  log (exec (monitor_orders_cycle sink (Table table)) s)
  = log s
    ++ ((λ r, Info_event_sent "orders" (_determine_order_event_type r)) <$> take k batch)
    ++ (if decide (k = length batch) then []
        else [Error_send_failed "orders" e; Error_monitoring_orders e]).
Proof.
  intros Hwm batch k e. rewrite (monitor_orders_cycle_exec _ _ _ _ Hwm). cbn zeta.
  pose proof (for_each_process_order_log sink batch s) as Hlog.
  destruct (for_each_process_order sink batch s wm Hwm) as (_ & _ & _ & Hok & Hfail).
  cbn zeta in Hlog. fold batch k in Hlog, Hok, Hfail |- *.
  pose proof (acked_prefix_le sink (publishes s) (length batch)) as Hle. fold k in Hle.
  case_decide as Hk.
  - destruct (Hok Hk) as [-> _]. exact Hlog.
  - destruct Hfail as (-> & _ & _); [lia|]. simpl. rewrite Hlog.
    fold e. by rewrite <- !app_assoc.
Qed.

Lemma monitor_orders_cycle_other_keys sink src s key :
  key ≠ "orders" →
  last_processed (exec (monitor_orders_cycle sink src) s) !! key
  = last_processed s !! key.
Proof.
  intros Hkey. destruct src as [| |table].
  - by destruct (monitor_orders_cycle_source_fails sink ConnectFails s) as [-> _]; [left|].
  - by destruct (monitor_orders_cycle_source_fails sink QueryFails s) as [-> _]; [right|].
  - destruct (last_processed s !! "orders") as [wm|] eqn:Hwm.
    + rewrite (monitor_orders_cycle_exec _ _ _ _ Hwm). cbn zeta.
      pose proof (for_each_process_order_other_keys sink (poll_orders table wm) key s Hkey) as H.
      by destruct (for_each _ _ s) as [[[]|e] s1].
    + by rewrite monitor_orders_cycle_no_key.
Qed.


(** The key of the orders watermark stays in the dictionary. *)
Lemma monitor_orders_cycle_keeps_key sink src s wm :
  last_processed s !! "orders" = Some wm →
  ∃ wm', last_processed (exec (monitor_orders_cycle sink src) s) !! "orders" = Some wm'
         ∧ wm_le wm wm'.
Proof.
  intros Hwm.
  pose proof (monitor_orders_cycle_watermark_mono sink src s wm Hwm) as Hmono.
  destruct src as [| |table].
  - destruct (monitor_orders_cycle_source_fails sink ConnectFails s) as [H _]; [by left|].
    exists wm. rewrite H. split; [done|apply wm_le_refl].
  - destruct (monitor_orders_cycle_source_fails sink QueryFails s) as [H _]; [by right|].
    exists wm. rewrite H. split; [done|apply wm_le_refl].
  - destruct (monitor_orders_cycle_table sink table s wm Hwm) as [H _].
    eexists. split; [exact H|]. by rewrite (watermark_lookup _ _ H) in Hmono.
Qed.

(** Unfolding the loop by one pass. *)
Lemma monitor_orders_cons sink src srcs s :
  running s = true →
  monitor_orders sink (src :: srcs) s
  = monitor_orders sink srcs (exec (monitor_orders_cycle sink src) s).
Proof.
  intros Hrun. cbn [monitor_orders]. unfold_M. rewrite Hrun.
  pose proof (monitor_orders_cycle_returns sink src s) as Hok. unfold exec.
  by destruct (monitor_orders_cycle sink src s) as [[[]|e] s1].
Qed.

Lemma exec_monitor_orders_cons sink src srcs s :
  running s = true →
  exec (monitor_orders sink (src :: srcs)) s
  = exec (monitor_orders sink srcs) (exec (monitor_orders_cycle sink src) s).
Proof. intros Hrun. unfold exec at 1. by rewrite monitor_orders_cons. Qed.

Lemma monitor_orders_stopped sink srcs s :
  running s = false → monitor_orders sink srcs s = (Ok tt, s).
Proof.
  intros Hrun. destruct srcs as [|src srcs]; [done|].
  cbn [monitor_orders]. unfold_M. by rewrite Hrun.
Qed.

(** ** Runs of the loop *)





(** X7.  When the broker acknowledges every publish of a pass, the pass
    hands over and gets acknowledged the whole polled batch, in the
    order of the poll, writes one line per event and no error to the
    log, and leaves the watermark at the modification time of the last
    row of the batch. *)
Theorem X7_acknowledged_pass_delivers_batch sink table s wm :
  last_processed s !! "orders" = Some wm →
  let batch := poll_orders table wm in
  (∀ j, (j < length batch)%nat → sink (publishes s + j)%nat = Acked) →
  let s' := exec (monitor_orders_cycle sink (Table table)) s in
  sent s' = sent s ++ (published <$> batch)
  ∧ acked s' = acked s ++ (published <$> batch)
  ∧ publishes s' = (publishes s + length batch)%nat
  ∧ log s' = log s ++ (sent_log <$> batch)
  ∧ last_processed s' !! "orders" = Some (wm_after wm batch)
  ∧ (batch ≠ [] → watermark s' = Row.updated_at <$> last batch).
Proof.
  intros Hwm batch Hall s'.
  pose proof (acked_prefix_all sink (publishes s) (length batch) Hall) as Hk.
  destruct (monitor_orders_cycle_table sink table s wm Hwm) as (Ha & Hb & _ & Hp).
  pose proof (monitor_orders_cycle_log sink table s wm Hwm) as Hlog.
  cbn zeta in Hlog. fold batch in Ha, Hb, Hp, Hlog. rewrite Hk in Ha, Hb, Hp, Hlog.
  destruct (decide (length batch = length batch)) as [_|]; [|done].
  rewrite take_ge in Ha, Hb, Hlog by done.
  rewrite app_nil_r in Hlog.
  assert (Hsent : sent s' = sent s ++ (published <$> batch)).
  { unfold s'. rewrite (monitor_orders_cycle_exec _ _ _ _ Hwm). cbn zeta.
    pose proof (for_each_process_order_sent sink batch s) as Hs. cbn zeta in Hs.
    rewrite Hk, take_ge in Hs by lia.
    fold batch. by destruct (for_each batch _ s) as [[[]|e] s1]. }
  split_and!; try done.
  intros Hne. unfold s'. rewrite (watermark_lookup _ _ Ha). unfold wm_after.
  destruct (last batch) as [r|] eqn:El; [done|].
  by apply last_None in El.
Qed.

Lemma X7_acknowledged_pass_delivers_batch_witness :
  let s' := exec (monitor_orders_cycle Sample.always_acks (Table Sample.three_orders)) init in
  acked s' = acked init ++ (published <$> poll_orders Sample.three_orders None)
  ∧ watermark s' = Some (Sample.at_time 12 0 0).
Proof.
  pose proof (X7_acknowledged_pass_delivers_batch Sample.always_acks
                Sample.three_orders init None eq_refl (λ _ _, eq_refl)) as H.
  cbn zeta in H. destruct H as (_ & Hacked & _ & _ & _ & Hwm).
  split; [exact Hacked|]. rewrite Hwm; [vm_compute; reflexivity|].
  vm_compute. discriminate.
Defined.

Lemma poll_orders_nil table wm :
  poll_orders table wm = [] ↔ Forall (λ r, ¬ selected (build_query wm) r) table.
Proof.
  rewrite poll_orders_unfold. split.
  - intros H. apply take_nil_inv in H as [H|H]; [done|].
    apply Forall_forall. intros r Hr Hsel.
    assert (r ∈ merge_sort updated_le (filter (selected (build_query wm)) table)) as Hin.
    { rewrite merge_sort_Permutation. by apply list_elem_of_filter. }
    rewrite H in Hin. by apply elem_of_nil in Hin.
  - intros H. replace (filter _ table) with (@nil Row.order); [done|].
    symmetry. induction H as [|r l Hr _ IH]; [done|].
    by rewrite filter_cons_False.
Qed.

(** X8.  A pass that finds no row later than the watermark, among them
    a pass over an empty table, changes nothing at all: no publish, no
    log line, the same watermark. *)
Theorem X8_empty_poll_changes_nothing sink table s wm :
  last_processed s !! "orders" = Some wm →
  Forall (λ r, ¬ selected (build_query wm) r) table →
  poll_orders table wm = []
  ∧ exec (monitor_orders_cycle sink (Table table)) s = s.
Proof.
  intros Hwm Hnone. apply poll_orders_nil in Hnone. split; [done|].
  rewrite (monitor_orders_cycle_exec _ _ _ _ Hwm), Hnone. done.
Qed.

Lemma X8_empty_poll_changes_nothing_witness :
  let s := exec (monitor_orders_cycle Sample.always_acks (Table Sample.three_orders)) init in
  poll_orders Sample.three_orders (Some (Sample.at_time 12 0 0)) = []
  ∧ exec (monitor_orders_cycle Sample.always_acks (Table Sample.three_orders)) s = s.
Proof.
  apply (X8_empty_poll_changes_nothing Sample.always_acks Sample.three_orders
           (exec (monitor_orders_cycle Sample.always_acks (Table Sample.three_orders)) init)
           (Some (Sample.at_time 12 0 0))).
  - vm_compute. reflexivity.
  - repeat constructor; vm_compute; intros H; discriminate H.
Defined.

(** X9.  Over a whole run the entry of the orders table stays in
    [last_processed] and its watermark never moves back, and the loop
    never writes the entries of the other tables. *)
Theorem X9_run_keeps_watermarks sink srcs s wm :
  last_processed s !! "orders" = Some wm →
  let s' := exec (monitor_orders sink srcs) s in
  (∃ wm', last_processed s' !! "orders" = Some wm' ∧ wm_le wm wm')
  ∧ (∀ key, key ≠ "orders" → last_processed s' !! key = last_processed s !! key).
Proof.
  intros Hwm. cbn zeta. revert s wm Hwm.
  induction srcs as [|src srcs IH]; intros s wm Hwm.
  - split; [|done]. exists wm. split; [done|apply wm_le_refl].
  - destruct (running s) eqn:Hrun.
    + rewrite (exec_monitor_orders_cons _ _ _ _ Hrun).
      destruct (monitor_orders_cycle_keeps_key sink src s wm Hwm) as (wm1 & H1 & Hle1).
      destruct (IH _ _ H1) as ((wm2 & H2 & Hle2) & Hother).
      split.
      * exists wm2. split; [done|]. by eapply wm_le_trans.
      * intros key Hkey. rewrite Hother by done.
        by apply monitor_orders_cycle_other_keys.
    + unfold exec. rewrite (monitor_orders_stopped _ _ _ Hrun). simpl.
      split; [|done]. exists wm. split; [done|apply wm_le_refl].
Qed.

Lemma X9_run_keeps_watermarks_witness :
  let s' := exec (monitor_orders (Sample.fails_at 1)
                    [Table Sample.three_orders; QueryFails; Table Sample.three_orders])
                 init in
  (∃ wm', last_processed s' !! "orders" = Some wm' ∧ wm_le None wm')
  ∧ (∀ key, key ≠ "orders" → last_processed s' !! key = last_processed init !! key).
Proof.
  apply (X9_run_keeps_watermarks (Sample.fails_at 1)
           [Table Sample.three_orders; QueryFails; Table Sample.three_orders] init None).
  reflexivity.
Defined.

Lemma wm_after_ge_elem wm (rows : list Row.order) r :
  StronglySorted updated_le rows → r ∈ rows →
  wm_le (Some (Row.updated_at r)) (wm_after wm rows).
Proof.
  intros Hs Hr. unfold wm_after.
  destruct (last rows) as [r'|] eqn:El.
  - apply last_Some in El as [l' ->].
    apply elem_of_app in Hr as [Hr|Hr].
    + unfold wm_le. eapply (StronglySorted_app_1_elem_of updated_le); [exact Hs|done|].
      apply list_elem_of_here.
    + apply list_elem_of_singleton in Hr as ->. apply wm_le_refl.
  - apply last_None in El. subst. by apply elem_of_nil in Hr.
Qed.

(** X10.  A row that a pass has got acknowledged is not polled again as
    long as its modification time stays the same, whatever else the
    table holds by then: the poll at the watermark the pass leaves does
    not return it. *)
Theorem X10_delivered_row_not_polled_again sink table s wm r table' :
  last_processed s !! "orders" = Some wm →
  let batch := poll_orders table wm in
  let k := acked_prefix sink (publishes s) (length batch) in
  let s' := exec (monitor_orders_cycle sink (Table table)) s in
  r ∈ take k batch →
  (published r ∈ acked s') ∧ r ∉ poll_orders table' (watermark s').
Proof.
  intros Hwm batch k s' Hr.
  destruct (monitor_orders_cycle_table sink table s wm Hwm) as (Ha & Hb & _).
  fold batch k s' in Ha, Hb. split.
  - rewrite Hb. apply elem_of_app. right. by apply list_elem_of_fmap_2.
  - rewrite (watermark_lookup _ _ Ha). intros Hin.
    apply poll_orders_elem in Hin as [_ Hsel].
    apply (proj1 (selected_build_query _ _)) in Hsel.
    assert (Hle : wm_le (Some (Row.updated_at r)) (wm_after wm (take k batch))).
    { apply wm_after_ge_elem; [|done].
      pose proof (poll_orders_sorted table wm) as Hs. fold batch in Hs.
      rewrite <- (take_drop k batch) in Hs. by apply StronglySorted_app_1_l in Hs. }
    destruct (wm_after wm (take k batch)) as [w|]; [|done].
    unfold wm_le in Hle. lia.
Qed.

Lemma X10_delivered_row_not_polled_again_witness :
  let s' := exec (monitor_orders_cycle (Sample.fails_at 1) (Table Sample.three_orders)) init in
  published Sample.confirmed_fresh ∈ acked s'
  ∧ Sample.confirmed_fresh ∉ poll_orders (Demo.completed :: Sample.three_orders) (watermark s').
Proof.
  apply (X10_delivered_row_not_polled_again (Sample.fails_at 1) Sample.three_orders
           init None Sample.confirmed_fresh (Demo.completed :: Sample.three_orders)).
  - reflexivity.
  - vm_compute. apply list_elem_of_here.
Defined.

(** X11.  A pass stops at the first publish that is refused or times
    out: the rows before it and the refused row itself have been handed
    to the broker, the rows behind it have not, and the log gets one
    line per delivered row and then the error twice, once from
    [send_event] and once from the handler of the loop. *)
Theorem X11_pass_stops_at_first_refusal sink table s wm k failed :
  last_processed s !! "orders" = Some wm →
  poll_orders table wm !! k = Some failed →
  (∀ j, (j < k)%nat → sink (publishes s + j)%nat = Acked) →
  sink (publishes s + k)%nat ≠ Acked →
  let batch := poll_orders table wm in
  let e := exn_of_outcome (sink (publishes s + k)%nat) in
  let s' := exec (monitor_orders_cycle sink (Table table)) s in
  sent s' = sent s ++ (published <$> take k batch) ++ [published failed]
  ∧ publishes s' = S (publishes s + k)
  ∧ is_KafkaError e = true
  ∧ log s' = log s ++ (sent_log <$> take k batch)
             ++ [Error_send_failed "orders" e; Error_monitoring_orders e].
Proof.
  intros Hwm Hk Hacked Hfail batch e s'.
  apply lookup_lt_Some in Hk as Hlt.
  pose proof (acked_prefix_first_refusal _ _ _ k Hlt Hacked Hfail) as Hpre.
  fold batch in Hlt, Hpre, Hk.
  destruct (monitor_orders_cycle_table sink table s wm Hwm) as (_ & _ & _ & Hp).
  pose proof (monitor_orders_cycle_log sink table s wm Hwm) as Hlog.
  cbn zeta in Hlog. fold batch s' in Hp, Hlog. rewrite Hpre in Hp, Hlog.
  destruct (decide (k = length batch)) as [Heq|_]; [lia|].
  split_and!; [|by rewrite Hp, Nat.add_succ_r| |exact Hlog].
  - unfold s'. rewrite (monitor_orders_cycle_exec _ _ _ _ Hwm). cbn zeta.
    pose proof (for_each_process_order_sent sink batch s) as Hs. cbn zeta in Hs.
    rewrite Hpre, (take_S_r _ _ _ Hk), fmap_app in Hs.
    fold batch. by destruct (for_each batch _ s) as [[[]|e'] s1].
  - unfold e. by destruct (sink (publishes s + k)%nat).
Qed.

Lemma X11_pass_stops_at_first_refusal_witness :
  let s' := exec (monitor_orders_cycle (Sample.times_out_at 1) (Table Sample.three_orders))
                 init in
  sent s' = [published Sample.confirmed_fresh; published Sample.shipped]
  ∧ log s' = [Info_initialized; sent_log Sample.confirmed_fresh;
              Error_send_failed "orders" KafkaTimeoutError;
              Error_monitoring_orders KafkaTimeoutError].
Proof.
  pose proof (X11_pass_stops_at_first_refusal (Sample.times_out_at 1) Sample.three_orders
                init None 1 Sample.shipped) as H.
  destruct H as (Hsent & _ & _ & Hlog).
  - reflexivity.
  - vm_compute. reflexivity.
  - intros j Hj. assert (j = 0%nat) as -> by lia. reflexivity.
  - vm_compute. discriminate.
  - cbn zeta. rewrite Hsent, Hlog. vm_compute. split; reflexivity.
Defined.

(** ** Tables whose rows have distinct modification times *)

Lemma pending_sorted table wm : StronglySorted updated_le (pending table wm).
Proof. apply (StronglySorted_merge_sort _). Qed.

Lemma pending_Permutation table wm :
  pending table wm ≡ₚ filter (selected (build_query wm)) table.
Proof. apply merge_sort_Permutation. Qed.

Lemma poll_orders_pending table wm : poll_orders table wm = take 100 (pending table wm).
Proof. reflexivity. Qed.

Lemma pending_selected table wm :
  Forall (selected (build_query wm)) (pending table wm).
Proof.
  apply Forall_forall. intros r Hr. rewrite pending_Permutation in Hr.
  by apply list_elem_of_filter in Hr as [? _].
Qed.

Lemma pending_elem table wm r : r ∈ pending table wm → r ∈ table.
Proof.
  intros Hr. rewrite pending_Permutation in Hr.
  by apply list_elem_of_filter in Hr as [_ ?].
Qed.

Lemma distinct_times_inj table r1 r2 :
  distinct_times table → r1 ∈ table → r2 ∈ table →
  modified_us r1 = modified_us r2 → r1 = r2.
Proof.
  unfold distinct_times. induction table as [|x table IH]; intros Hnd H1 H2 Heq.
  - by apply elem_of_nil in H1.
  - rewrite fmap_cons in Hnd. apply NoDup_cons in Hnd as [Hx Hnd].
    apply elem_of_cons in H1 as [->|H1]; apply elem_of_cons in H2 as [->|H2].
    + done.
    + exfalso. apply Hx. rewrite Heq. by apply list_elem_of_fmap_2.
    + exfalso. apply Hx. rewrite <- Heq. by apply list_elem_of_fmap_2.
    + by apply IH.
Qed.

Lemma StronglySorted_filter {A} (R : relation A) (P : A → Prop)
    `{∀ x, Decision (P x)} (l : list A) :
  StronglySorted R l → StronglySorted R (filter P l).
Proof.
  induction 1 as [|x l Hs IH Hx]; [constructor|].
  rewrite filter_cons. case_decide; [|done].
  constructor; [done|]. apply Forall_forall. intros y Hy.
  apply list_elem_of_filter in Hy as [_ Hy].
  by eapply Forall_forall in Hx.
Qed.

(** With distinct times the order of the rows is strict. *)
Lemma pending_strictly_sorted table wm :
  distinct_times table → StronglySorted updated_lt (pending table wm).
Proof.
  intros Hd.
  assert (Hin : ∀ r, r ∈ pending table wm → r ∈ table) by apply pending_elem.
  assert (Hnd : NoDup (pending table wm)).
  { rewrite pending_Permutation. apply NoDup_filter.
    unfold distinct_times in Hd. by apply NoDup_fmap_1 in Hd. }
  pose proof (pending_sorted table wm) as Hs.
  induction Hs as [|x l Hs IH Hx]; [constructor|].
  apply NoDup_cons in Hnd as [Hxl Hnd].
  constructor.
  - apply IH; [|done]. intros r Hr. apply Hin. by right.
  - apply Forall_forall. intros y Hy.
    assert (updated_le x y) as Hle by (by eapply Forall_forall in Hx).
    unfold updated_le in Hle. unfold updated_lt, modified_us.
    destruct (decide (modified_us x = modified_us y)) as [Heq|Hne];
      [|unfold modified_us in Hne; lia].
    exfalso. apply Hxl.
    rewrite (distinct_times_inj table x y Hd); [done| | |done].
    + apply Hin. by left.
    + apply Hin. by right.
Qed.

(** On strictly ordered rows that the query at [wm] selects, the query at
    the watermark reached after the first [m] rows selects exactly the
    rows behind them. *)
Lemma filter_after_prefix (rows : list Row.order) : ∀ wm m,
  StronglySorted updated_lt rows →
  Forall (selected (build_query wm)) rows →
  filter (selected (build_query (wm_after wm (take m rows)))) rows = drop m rows.
Proof.
  induction rows as [|x rows IH]; intros wm m Hs Hsel.
  - by destruct m.
  - apply StronglySorted_inv in Hs as [Hs Hx].
    destruct m as [|m].
    + rewrite take_0. change (wm_after wm []) with wm. simpl drop.
      clear -Hsel. induction Hsel as [|y l Hy _ IHl]; [done|].
      by rewrite filter_cons_True, IHl.
    + cbn [take drop]. rewrite wm_after_cons.
      assert (Hafter : Forall (selected (build_query (Some (Row.updated_at x)))) rows).
      { apply Forall_forall. intros y Hy. apply selected_build_query.
        eapply Forall_forall in Hx; [|exact Hy]. exact Hx. }
      rewrite filter_cons_False; [by apply IH|].
      intros Hselx. apply (proj1 (selected_build_query _ _)) in Hselx.
      unfold wm_after in Hselx.
      destruct (last (take m rows)) as [r'|] eqn:El; cbv beta iota in Hselx; [|lia].
      apply last_Some_elem_of in El. apply (subseteq_take m) in El.
      eapply Forall_forall in Hx; [|exact El].
      unfold updated_lt, modified_us in Hx. lia.
Qed.

(** With distinct times, sorting and a later [WHERE] can be swapped. *)
Lemma pending_later table wm wm' :
  distinct_times table →
  (∀ r, selected (build_query wm') r → selected (build_query wm) r) →
  pending table wm' = filter (selected (build_query wm')) (pending table wm).
Proof.
  intros Hd Himp.
  apply (StronglySorted_unique_strong updated_le).
  - intros x1 x2 H1 H2 Hle1 Hle2.
    apply (distinct_times_inj table); [done|by eapply pending_elem| |].
    + apply list_elem_of_filter in H2 as [_ H2]. by eapply pending_elem.
    + unfold updated_le in *. unfold modified_us. lia.
  - apply pending_sorted.
  - apply StronglySorted_filter, pending_sorted.
  - rewrite !pending_Permutation. by rewrite list_filter_filter_l.
Qed.

Lemma selected_wm_le wm wm' r :
  wm_le wm wm' → selected (build_query wm') r → selected (build_query wm) r.
Proof.
  intros Hle Hsel. apply selected_build_query.
  apply (proj1 (selected_build_query _ _)) in Hsel.
  unfold wm_le in Hle. destruct wm as [w|], wm' as [w'|]; try done. lia.
Qed.

(** The rows still to be delivered after a prefix of them has been. *)
Lemma pending_after_prefix table wm m :
  distinct_times table →
  pending table (wm_after wm (take m (pending table wm))) = drop m (pending table wm).
Proof.
  intros Hd.
  rewrite (pending_later table wm).
  - apply filter_after_prefix; [by apply pending_strictly_sorted|apply pending_selected].
  - done.
  - intros r. apply selected_wm_le.
    unfold wm_after. destruct (last _) as [r'|] eqn:El; [|apply wm_le_refl].
    apply last_Some_elem_of in El. apply (subseteq_take m) in El.
    pose proof (pending_selected table wm) as Hsel.
    eapply Forall_forall in Hsel; [|exact El].
    apply (proj1 (selected_build_query _ _)) in Hsel.
    unfold wm_le. destruct wm; [lia|done].
Qed.

Lemma wm_after_app wm (l1 l2 : list Row.order) :
  wm_after wm (l1 ++ l2) = wm_after (wm_after wm l1) l2.
Proof.
  revert wm. induction l1 as [|x l1 IH]; intros wm; [done|].
  rewrite <- app_comm_cons, !wm_after_cons. apply IH.
Qed.

Lemma monitor_orders_cycle_all_acked sink table s wm :
  last_processed s !! "orders" = Some wm →
  (∀ i, sink i = Acked) →
  let batch := poll_orders table wm in
  let s' := exec (monitor_orders_cycle sink (Table table)) s in
  last_processed s' !! "orders" = Some (wm_after wm batch)
  ∧ acked s' = acked s ++ (published <$> batch)
  ∧ sent s' = sent s ++ (published <$> batch)
  ∧ running s' = running s.
Proof.
  intros Hwm Hall batch s'.
  pose proof (acked_prefix_all sink (publishes s) (length batch) (λ j _, Hall _)) as Hk.
  destruct (monitor_orders_cycle_table sink table s wm Hwm) as (Ha & Hb & Hr & _).
  fold batch s' in Ha, Hb, Hr. rewrite Hk, take_ge in Ha, Hb by done.
  split_and!; try done.
  unfold s'. rewrite (monitor_orders_cycle_exec _ _ _ _ Hwm). cbn zeta.
  pose proof (for_each_process_order_sent sink batch s) as Hs. cbn zeta in Hs.
  rewrite Hk, take_ge in Hs by lia.
  fold batch. by destruct (for_each batch _ s) as [[[]|e] s1].
Qed.

(** X12.  On a table whose rows have distinct modification times, the
    poll after a pass takes up the rows selected before exactly behind
    the ones the pass has got acknowledged: when a publish was refused,
    the next poll of the unchanged table starts with the refused row
    and goes on with the rest of the batch. *)
Theorem X12_next_poll_resumes_behind_delivered sink table s wm :
  distinct_times table →
  last_processed s !! "orders" = Some wm →
  let batch := poll_orders table wm in
  let k := acked_prefix sink (publishes s) (length batch) in
  let s' := exec (monitor_orders_cycle sink (Table table)) s in
  poll_orders table (watermark s') = take 100 (drop k (pending table wm))
  ∧ ((k < length batch)%nat → poll_orders table (watermark s') !! 0%nat = batch !! k)
  ∧ drop k batch `prefix_of` poll_orders table (watermark s').
Proof.
  intros Hd Hwm batch k s'.
  destruct (monitor_orders_cycle_table sink table s wm Hwm) as (Ha & _).
  fold batch k s' in Ha. apply watermark_lookup in Ha.
  pose proof (acked_prefix_le sink (publishes s) (length batch)) as Hk. fold k in Hk.
  pose proof (poll_orders_length table wm) as Hlen. fold batch in Hlen.
  assert (Htake : take k batch = take k (pending table wm)).
  { unfold batch. rewrite poll_orders_pending, take_take. f_equal. lia. }
  assert (Hnext : poll_orders table (watermark s') = take 100 (drop k (pending table wm))).
  { rewrite Ha, Htake, poll_orders_pending. by rewrite pending_after_prefix. }
  split_and!; [exact Hnext| |].
  - intros Hlt. rewrite Hnext, lookup_take_lt, lookup_drop, Nat.add_0_r by lia.
    unfold batch. rewrite poll_orders_pending, lookup_take_lt; [done|lia].
  - rewrite Hnext. unfold batch. rewrite poll_orders_pending.
    replace (drop k (take 100 (pending table wm)))
      with (take (100 - k) (take 100 (drop k (pending table wm)))).
    + apply prefix_take.
    + rewrite take_take, take_drop_commute. do 2 f_equal. lia.
Qed.

Lemma three_orders_distinct : distinct_times Sample.three_orders.
Proof.
  unfold distinct_times. vm_compute.
  repeat (apply NoDup_cons; split;
          [intros H; repeat (apply elem_of_cons in H as [H|H]; [discriminate H|]);
           by apply elem_of_nil in H|]).
  apply NoDup_nil_2.
Qed.

Lemma X12_next_poll_resumes_behind_delivered_witness :
  let s' := exec (monitor_orders_cycle (Sample.fails_at 1) (Table Sample.three_orders)) init in
  poll_orders Sample.three_orders (watermark s') !! 0%nat = Some Sample.shipped
  ∧ poll_orders Sample.three_orders (watermark s') = [Sample.shipped; Sample.unknown].
Proof.
  pose proof (X12_next_poll_resumes_behind_delivered (Sample.fails_at 1)
                Sample.three_orders init None three_orders_distinct eq_refl) as H.
  cbn zeta in H. destruct H as (Hnext & Hhead & _).
  split.
  - rewrite Hhead; [vm_compute; reflexivity|vm_compute; lia].
  - rewrite Hnext. vm_compute. reflexivity.
Defined.

(** The passes of a run over an unchanging table with an acknowledging
    broker, from a watermark reached by delivering the first [m] rows. *)
Lemma monitor_orders_passes sink table n : ∀ m s,
  distinct_times table →
  (∀ i, sink i = Acked) →
  running s = true →
  last_processed s !! "orders"
  = Some (wm_after None (take m (pending table None))) →
  let s' := exec (monitor_orders sink (replicate n (Table table))) s in
  last_processed s' !! "orders"
  = Some (wm_after None (take (m + 100 * n) (pending table None)))
  ∧ acked s' = acked s ++ (published <$> take (100 * n) (drop m (pending table None)))
  ∧ sent s' = sent s ++ (published <$> take (100 * n) (drop m (pending table None))).
Proof.
  induction n as [|n IH]; intros m s Hd Hall Hrun Hwm; cbn zeta.
  - rewrite Nat.mul_0_r, Nat.add_0_r, take_0. simpl. by rewrite !app_nil_r.
  - cbn [replicate]. rewrite (exec_monitor_orders_cons _ _ _ _ Hrun).
    destruct (monitor_orders_cycle_all_acked sink table s _ Hwm Hall)
      as (Ha & Hb & Hc & Hr).
    rewrite poll_orders_pending, pending_after_prefix in Ha, Hb, Hc by done.
    rewrite <- wm_after_app, take_take_drop in Ha.
    destruct (IH (m + 100)%nat _ Hd Hall ltac:(by rewrite Hr) Ha) as (H1 & H2 & H3).
    rewrite H1, H2, H3, Hb, Hc.
    replace (m + 100 + 100 * n)%nat with (m + 100 * S n)%nat by lia.
    replace (100 * S n)%nat with (100 + 100 * n)%nat by lia.
    rewrite <- (take_take_drop (drop m (pending table None)) 100 (100 * n)).
    rewrite drop_drop, fmap_app, !app_assoc. done.
Qed.

(** X13.  On a table that does not change and whose rows have distinct
    modification times, with a broker that acknowledges every publish,
    [n] passes of a fresh producer deliver the first [100 * n] rows of
    the table in ascending order of modification time, each row once;
    so once [100 * n] reaches the size of the table every row has been
    delivered exactly once, and further passes deliver nothing more. *)
Theorem X13_rows_delivered_once_in_order sink table n s :
  distinct_times table →
  (∀ i, sink i = Acked) →
  running s = true →
  last_processed s !! "orders" = Some None →
  let s' := exec (monitor_orders sink (replicate n (Table table))) s in
  let sorted := merge_sort updated_le table in
  acked s' = acked s ++ (published <$> take (100 * n) sorted)
  ∧ sent s' = sent s ++ (published <$> take (100 * n) sorted)
  ∧ watermark s' = wm_after None (take (100 * n) sorted)
  ∧ sorted ≡ₚ table
  ∧ StronglySorted updated_lt sorted
  ∧ ((length table ≤ 100 * n)%nat → acked s' = acked s ++ (published <$> sorted)).
Proof.
  intros Hd Hall Hrun Hwm s' sorted.
  assert (Hp : pending table None = sorted).
  { unfold pending, sorted. by rewrite filter_selected_unset. }
  destruct (monitor_orders_passes sink table n 0 s Hd Hall Hrun) as (H1 & H2 & H3).
  { by rewrite take_0. }
  rewrite Hp, drop_0 in H2, H3. rewrite Hp in H1. simpl in H1.
  fold s' in H1, H2, H3.
  split_and!; try done.
  - by apply watermark_lookup.
  - apply merge_sort_Permutation.
  - rewrite <- Hp. by apply pending_strictly_sorted.
  - intros Hlen. rewrite H2, take_ge; [done|].
    unfold sorted. by rewrite merge_sort_Permutation.
Qed.

Lemma X13_rows_delivered_once_in_order_witness :
  let s' := exec (monitor_orders Sample.always_acks
                    (replicate 2 (Table [Sample.unknown; Sample.confirmed_fresh;
                                         Sample.shipped]))) init in
  acked s' = published <$> [Sample.confirmed_fresh; Sample.shipped; Sample.unknown].
Proof.
  pose proof (X13_rows_delivered_once_in_order Sample.always_acks
                [Sample.unknown; Sample.confirmed_fresh; Sample.shipped] 2 init) as H.
  cbn zeta in H. destruct H as (_ & _ & _ & _ & _ & H).
  - unfold distinct_times. vm_compute.
    repeat (apply NoDup_cons; split;
            [intros H; repeat (apply elem_of_cons in H as [H|H]; [discriminate H|]);
             by apply elem_of_nil in H|]).
    apply NoDup_nil_2.
  - reflexivity.
  - reflexivity.
  - reflexivity.
  - cbn zeta. rewrite H; [vm_compute; reflexivity|simpl; lia].
Defined.

Lemma monitor_orders_cycle_watermark_source sink src s wm :
  last_processed s !! "orders" = Some wm →
  let s' := exec (monitor_orders_cycle sink src) s in
  watermark s' = wm
  ∨ ∃ r, published r ∈ acked s' ∧ watermark s' = Some (Row.updated_at r).
Proof.
  intros Hwm s'. destruct src as [| |table].
  - left. destruct (monitor_orders_cycle_source_fails sink ConnectFails s) as [H _]; [by left|].
    unfold s', watermark. by rewrite H, Hwm.
  - left. destruct (monitor_orders_cycle_source_fails sink QueryFails s) as [H _]; [by right|].
    unfold s', watermark. by rewrite H, Hwm.
  - destruct (monitor_orders_cycle_table sink table s wm Hwm) as (Ha & Hb & _).
    fold s' in Ha, Hb. rewrite (watermark_lookup _ _ Ha). unfold wm_after.
    destruct (last _) as [r|] eqn:El; [right|by left].
    exists r. split; [|done]. rewrite Hb. apply elem_of_app. right.
    apply list_elem_of_fmap_2. by apply last_Some_elem_of in El.
Qed.

(** X14.  Over a whole run the watermark only ever takes the
    modification time of a row whose event the broker has acknowledged:
    at the end of the run it is either the value it had at the start or
    the time of such a row. *)
Theorem X14_watermark_is_an_acknowledged_row sink srcs s wm :
  last_processed s !! "orders" = Some wm →
  let s' := exec (monitor_orders sink srcs) s in
  watermark s' = wm
  ∨ ∃ r, published r ∈ acked s' ∧ watermark s' = Some (Row.updated_at r).
Proof.
  intros Hwm. cbn zeta. revert s wm Hwm.
  induction srcs as [|src srcs IH]; intros s wm Hwm.
  - left. by apply watermark_lookup.
  - destruct (running s) eqn:Hrun.
    + rewrite (exec_monitor_orders_cons _ _ _ _ Hrun).
      set (s1 := exec (monitor_orders_cycle sink src) s).
      destruct (monitor_orders_cycle_keeps_key sink src s wm Hwm) as (wm1 & H1 & _).
      fold s1 in H1.
      destruct (IH s1 wm1 H1) as [Hsame|Hrow]; [|by right].
      rewrite Hsame.
      destruct (monitor_orders_cycle_watermark_source sink src s wm Hwm) as [Hw|(r & Hr & Hw)];
        fold s1 in Hw; rewrite (watermark_lookup _ _ H1) in Hw; [by left|right].
      exists r. split; [|done].
      destruct (monitor_orders_acked sink srcs s1) as [[rows ->] _].
      apply elem_of_app. by left.
    + unfold exec. rewrite (monitor_orders_stopped _ _ _ Hrun). simpl.
      left. by apply watermark_lookup.
Qed.

Lemma X14_watermark_is_an_acknowledged_row_witness :
  let s' := exec (monitor_orders (Sample.fails_at 1)
                    [Table Sample.three_orders; ConnectFails]) init in
  watermark s' = None
  ∨ ∃ r, published r ∈ acked s' ∧ watermark s' = Some (Row.updated_at r).
Proof.
  apply (X14_watermark_is_an_acknowledged_row (Sample.fails_at 1)
           [Table Sample.three_orders; ConnectFails] init None).
  reflexivity.
Defined.

(** ** The text of a datetime *)

Lemma string_app_cons x (a b : string) : String x a +:+ b = String x (a +:+ b).
Proof. reflexivity. Qed.

Lemma string_app_nil_l (a : string) : "" +:+ a = a.
Proof. reflexivity. Qed.

Lemma string_app_assoc (a b c : string) : (a +:+ b) +:+ c = a +:+ (b +:+ c).
Proof.
  induction a as [|x a IH]; [reflexivity|].
  rewrite !string_app_cons. by rewrite IH.
Qed.

Lemma all_digits_app a b : all_digits a → all_digits b → all_digits (a +:+ b).
Proof.
  induction a as [|x a IH]; [done|].
  rewrite string_app_cons. cbn [all_digits]. intros [? ?] ?. auto.
Qed.

Lemma num_app acc a b : num acc (a +:+ b) = num (num acc a) b.
Proof.
  revert acc. induction a as [|x a IH]; intros acc; [done|].
  rewrite string_app_cons. cbn [num]. apply IH.
Qed.

Lemma read_digits_app acc d rest :
  all_digits d → read_digits acc (d +:+ rest) = read_digits (num acc d) rest.
Proof.
  revert acc. induction d as [|x d IH]; intros acc Hd; [done|].
  rewrite string_app_cons. cbn [num read_digits all_digits] in *.
  destruct Hd as [[n Hn] Hd]. rewrite Hn. cbn [default from_option]. by apply IH.
Qed.

Lemma read_digits_stop acc rest :
  (∀ c r, rest = String c r → Ascii.is_nat c = None) →
  read_digits acc rest = (acc, rest).
Proof.
  destruct rest as [|c rest]; simpl; [done|]. intros H. by rewrite (H c rest).
Qed.

Lemma ends_number_stop rest c r :
  ends_number rest → rest = String c r → Ascii.is_nat c = None.
Proof. intros H ->. by destruct H. Qed.

Lemma pretty_N_char_digit x :
  (x < 10)%N → Ascii.is_nat (pretty_N_char x) = Some (N.to_nat x).
Proof.
  intros Hx.
  assert (x = 0 ∨ x = 1 ∨ x = 2 ∨ x = 3 ∨ x = 4 ∨ x = 5 ∨ x = 6 ∨ x = 7
          ∨ x = 8 ∨ x = 9)%N as Hc by lia.
  repeat (destruct Hc as [-> | Hc]; [reflexivity|]). by subst.
Qed.

(** The digits that [pretty] puts in front of a string spell the number. *)
Lemma pretty_N_go_digits x : ∀ s,
  ∃ d, pretty_N_go x s = d +:+ s ∧ all_digits d ∧ num 0 d = x.
Proof.
  induction (N.lt_wf_0 x) as [x _ IH]; intros s.
  destruct (decide (x = 0)%N) as [->|Hx].
  - exists "". by rewrite pretty_N_go_0.
  - rewrite pretty_N_go_step by lia.
    destruct (IH (x `div` 10)%N) with (s := String (pretty_N_char (x `mod` 10)) s)
      as (d & Hd & Hall & Hnum).
    { apply N.div_lt; lia. }
    pose proof (pretty_N_char_digit (x `mod` 10)%N) as Hc.
    specialize (Hc ltac:(apply N.mod_lt; lia)).
    exists (d +:+ String (pretty_N_char (x `mod` 10)) "").
    rewrite Hd, string_app_assoc. split; [done|]. split.
    + apply all_digits_app; [done|]. simpl. rewrite Hc. split; [by eexists|done].
    + rewrite num_app, Hnum. simpl. rewrite Hc. simpl.
      rewrite N2Nat.id. pose proof (N.div_mod x 10 ltac:(lia)). lia.
Qed.

Lemma pretty_N_digits (x : N) : all_digits (pretty x) ∧ num 0 (pretty x) = x.
Proof.
  unfold pretty, pretty_N. case_decide as Hx.
  - subst. by split; [split; [eexists|]|].
  - destruct (pretty_N_go_digits x "") as (d & Hd & Hall & Hnum).
    assert (Hnil : d +:+ "" = d).
    { clear. induction d as [|c d IH]; [done|]. by rewrite string_app_cons, IH. }
    rewrite Hnil in Hd. by rewrite Hd.
Qed.

Lemma zeros_digits k : all_digits (Py.zeros k) ∧ num 0 (Py.zeros k) = 0%N.
Proof.
  induction k as [|k [IH1 IH2]]; simpl; [done|].
  split; [split; [by eexists|done]|done].
Qed.

(** A printed field is read back as the number that was printed. *)
Lemma read_field_zfill w n rest :
  0 ≤ n → (∀ c r, rest = String c r → Ascii.is_nat c = None) →
  read_field (Py.zfill w n +:+ rest) = (n, rest).
Proof.
  intros Hn Hrest. unfold read_field, Py.zfill. cbn zeta.
  destruct (pretty_N_digits (Z.to_N n)) as [Hall Hnum].
  destruct (zeros_digits (w - String.length (pretty (Z.to_N n)))) as [Hz1 Hz2].
  rewrite read_digits_app by (by apply all_digits_app).
  rewrite num_app, Hz2, Hnum, read_digits_stop by done.
  by rewrite Z2N.id.
Qed.

(** The text [isoformat_sep] writes, followed by anything a number
    cannot run on into, is read back as the datetime and what follows. *)
Lemma read_datetime_isoformat sep t rest :
  Ascii.is_nat sep = None → sep ≠ "."%char →
  fields_nonneg t → ends_number rest →
  read_datetime sep (Py.isoformat_sep (String sep "") t +:+ rest) = Some (t, rest).
Proof.
  intros Hsep Hdot (Hy & Hmo & Hd & Hh & Hmi & Hs & Hus) Hrest.
  destruct t as [y mo d h mi sec us]. simpl in *.
  unfold Py.isoformat_sep, read_datetime. simpl Py.year. simpl Py.month.
  simpl Py.day. simpl Py.hour. simpl Py.minute. simpl Py.second. simpl Py.microsecond.
  rewrite !string_app_assoc.
  do 2 (rewrite read_field_zfill; [|done|by intros ?? [= <- _]]; cbv beta iota;
        rewrite string_app_cons, string_app_nil_l; cbn [expect];
        rewrite decide_True by done; cbn [mbind option_bind]).
  rewrite read_field_zfill; [|done|by intros ?? [= <- _]]. cbv beta iota.
  rewrite string_app_cons, string_app_nil_l. cbn [expect].
  rewrite decide_True by done. cbn [mbind option_bind].
  do 2 (rewrite read_field_zfill; [|done|by intros ?? [= <- _]]; cbv beta iota;
        rewrite string_app_cons, string_app_nil_l; cbn [expect];
        rewrite decide_True by done; cbn [mbind option_bind]).
  destruct (us =? 0) eqn:Eus.
  - apply Z.eqb_eq in Eus as ->. rewrite string_app_nil_l.
    rewrite read_field_zfill; [|done|by intros c r Hc; eapply (ends_number_stop rest c r)]. cbv beta iota.
    destruct rest as [|c rest]; [done|]. destruct Hrest as [_ Hc].
    cbn [expect]. by rewrite decide_False by done.
  - rewrite string_app_assoc. rewrite read_field_zfill; [|done|by intros ?? [= <- _]].
    cbv beta iota. rewrite string_app_cons, string_app_nil_l. cbn [expect].
    rewrite decide_True by done.
    by rewrite read_field_zfill; [|done|by intros c r Hc; eapply (ends_number_stop rest c r)].
Qed.

Lemma isoformat_sep_inj sep rest t1 t2 :
  Ascii.is_nat sep = None → sep ≠ "."%char → ends_number rest →
  fields_nonneg t1 → fields_nonneg t2 →
  Py.isoformat_sep (String sep "") t1 +:+ rest
  = Py.isoformat_sep (String sep "") t2 +:+ rest →
  t1 = t2.
Proof.
  intros Hsep Hdot Hrest H1 H2 Heq.
  pose proof (read_datetime_isoformat sep t1 rest Hsep Hdot H1 Hrest) as R1.
  pose proof (read_datetime_isoformat sep t2 rest Hsep Hdot H2 Hrest) as R2.
  rewrite Heq in R1. rewrite R1 in R2. by injection R2.
Qed.

(** X15.  The text of a datetime tells the datetime, to the microsecond:
    two watermarks with the same [WHERE] clause are the same datetime,
    and two rows whose events carry the same timestamp text have the
    same modification time. *)
Theorem X15_text_determines_datetime (t1 t2 : Py.datetime) (r1 r2 : Row.order) :
  fields_nonneg t1 → fields_nonneg t2 →
  fields_nonneg (Row.updated_at r1) → fields_nonneg (Row.updated_at r2) →
  (Py.str t1 = Py.str t2 → t1 = t2)
  ∧ (where_clause_text (build_query (Some t1)) = where_clause_text (build_query (Some t2))
     → t1 = t2)
  ∧ (OrderEvent.timestamp (build_order_event r1) = OrderEvent.timestamp (build_order_event r2)
     → Row.updated_at r1 = Row.updated_at r2).
Proof.
  intros H1 H2 Hr1 Hr2. split_and!.
  - intros Heq. apply (isoformat_sep_inj " " "" t1 t2); try done.
    unfold Py.str in Heq. by rewrite Heq.
  - unfold where_clause_text. cbn [build_query truthy where_updated_after].
    intros Heq. apply (inj (String.append _)) in Heq.
    apply (isoformat_sep_inj " " "'" t1 t2); try done.
  - cbn [build_order_event OrderEvent.timestamp]. intros Heq.
    apply (isoformat_sep_inj "T" "" _ _); try done.
    unfold Py.isoformat in Heq. by rewrite Heq.
Qed.

Lemma X15_text_determines_datetime_witness :
  (Py.str (Sample.at_time 10 0 10) = Py.str (Sample.at_time 10 0 10)
   → Sample.at_time 10 0 10 = Sample.at_time 10 0 10)
  ∧ where_clause_text (build_query (Some (Sample.at_time 10 0 10)))
    = "WHERE updated_at > '2024-03-05 10:00:10'"
  ∧ read_datetime " " "2024-03-05 10:00:10.000250'"
    = Some ({| Py.year := 2024; Py.month := 3; Py.day := 5; Py.hour := 10;
               Py.minute := 0; Py.second := 10; Py.microsecond := 250 |}, "'").
Proof.
  split; [|split; vm_compute; reflexivity].
  apply (X15_text_determines_datetime (Sample.at_time 10 0 10) (Sample.at_time 10 0 10)
           Sample.shipped Sample.unknown);
    vm_compute; repeat split; discriminate.
Defined.

(** X16.  One pass hands at most 100 payloads to the broker, whatever
    the size of the table and whatever the broker answers. *)
Theorem X16_pass_publishes_at_most_a_batch sink src s :
  let s' := exec (monitor_orders_cycle sink src) s in
  (publishes s ≤ publishes s' ≤ publishes s + 100)%nat
  ∧ (length (sent s) ≤ length (sent s') ≤ length (sent s) + 100)%nat
  ∧ (length (acked s) ≤ length (acked s') ≤ length (acked s) + 100)%nat.
Proof.
  cbn zeta. destruct src as [| |table].
  - destruct (monitor_orders_cycle_source_fails sink ConnectFails s)
      as (_ & -> & -> & _ & ->); [by left|]. lia.
  - destruct (monitor_orders_cycle_source_fails sink QueryFails s)
      as (_ & -> & -> & _ & ->); [by right|]. lia.
  - destruct (last_processed s !! "orders") as [wm|] eqn:Hwm.
    + destruct (monitor_orders_cycle_table sink table s wm Hwm) as (_ & Hb & _ & Hp).
      pose proof (acked_prefix_le sink (publishes s) (length (poll_orders table wm))) as Hk.
      pose proof (poll_orders_length table wm) as Hlen.
      assert (Hsent : ∃ rows, sent (exec (monitor_orders_cycle sink (Table table)) s)
                              = sent s ++ (published <$> rows) ∧ (length rows ≤ 100)%nat).
      { rewrite (monitor_orders_cycle_exec _ _ _ _ Hwm). cbn zeta.
        pose proof (for_each_process_order_sent sink (poll_orders table wm) s) as Hs.
        cbn zeta in Hs. eexists. split.
        - destruct (for_each (poll_orders table wm) _ s) as [[[]|e] s1]; exact Hs.
        - rewrite length_take. lia. }
      destruct Hsent as (rows & -> & Hrows).
      rewrite Hb, Hp, !length_app, !length_fmap, length_take.
      case_decide; lia.
    + rewrite monitor_orders_cycle_no_key by done. simpl. lia.
Qed.
